(** * Transaction generator: a shallow embedding of
      [Scripts/generate_transactions.py] and the properties of its
      anomaly planner, record synthesizer and CSV serializer.

    Conventions of the embedding.
    - The pseudo-random source of Python's [random] module is an oracle:
      a tape of raw integers read left to right.  Every primitive
      ([randint], [choice], [shuffle], [random], [uniform]) consumes raw
      draws and maps them into the range the library documents, so a
      statement quantified over every tape covers every run.
    - An amount is a whole number of cents: [round(x, 2)] of a float is the
      float nearest to a multiple of 0.01, identified here with that
      multiple.
    - A [datetime] is the number of seconds since [base_date],
      2023-01-01 00:00:00; [timedelta] arithmetic is integer arithmetic.
    - A finite float is the rational it denotes.  The one float operation
      that decides control flow, [int(num_rows * anomaly_percentage)], is
      rounded as binary64 does (nearest, ties to even), an infinite
      product being an error of [int].
    - Python exceptions (IndexError, ValueError, OverflowError) are the
      [None] outcome of the monad [M].
    - Integers are unbounded as in Python; the one place where the size
      type of the interpreter matters, [list(range(num_rows))], raises
      past [sys.maxsize].  Exhaustion of memory is not modelled. *)

From Stdlib Require Import ZArith QArith_base Lia String Ascii.
From Stdlib Require Import DecimalString DecimalN.
From stdpp Require Import base gmap strings list fin_maps.

Local Open Scope string_scope.
Local Open Scope Z_scope.
#[local] Set Warnings "-clear-no-such-hyp".

(** ** The random source and the exception monad *)

Module Random.

Record rng := Rng { tape : nat → Z; pos : nat }.

(** A computation that reads the random source and may raise. *)
Definition M (A : Type) : Type := rng → option (A * rng).

#[export] Instance M_ret : MRet M := λ A a g, Some (a, g).
#[export] Instance M_bind : MBind M := λ A B f m g,
  match m g with
  | Some (a, g') => f a g'
  | None => None
  end.

Definition raise {A} : M A := λ _, None.

Definition lift {A} (o : option A) : M A :=
  match o with
  | Some a => mret a
  | None => raise
  end.

(** One raw draw from the tape. *)
Definition next_raw : M Z :=
  λ g, Some (tape g (pos g), Rng (tape g) (S (pos g))).

(** [random._randbelow(n)]: an integer in [0, n); raises for [n <= 0]. *)
Definition randbelow (n : Z) : M Z :=
  if decide (0 < n) then r ← next_raw; mret (r `mod` n) else raise.

(** [random.randint(a, b)]: an integer in [a, b], both ends included. *)
Definition randint (a b : Z) : M Z :=
  r ← randbelow (b - a + 1); mret (a + r).

(** [seq[i]] with Python's IndexError past the end. *)
Definition index {A} (seq : list A) (i : nat) : M A := lift (seq !! i).

(** [random.choice(seq)]: [seq[randbelow(len(seq))]]. *)
Definition choice {A} (seq : list A) : M A :=
  j ← randbelow (Z.of_nat (length seq)); index seq (Z.to_nat j).

(** [random.random()]: a float k / 2^53 with 0 <= k < 2^53; the numerator. *)
Definition random53 : M Z := r ← next_raw; mret (r `mod` 2 ^ 53).

(** [round(random.uniform(lo, hi), 2)] in cents, for bounds given in cents:
    any multiple of 0.01 between the bounds, both included.  Like
    [uniform], it accepts the bounds in either order. *)
Definition round_uniform (lo hi : Z) : M Z :=
  r ← next_raw; mret (Z.min lo hi + r `mod` (Z.abs (hi - lo) + 1)).

(** [x[i], x[j] = x[j], x[i]] *)
Definition swap (x : list nat) (i j : nat) : M (list nat) :=
  xj ← index x j;
  xi ← index x i;
  mret (<[j:=xi]> (<[i:=xj]> x)).

(** [for i in reversed(range(1, len(x))): j = randbelow(i + 1); swap],
    with [i] running from [k] down to 1. *)
Fixpoint shuffle_from (k : nat) (x : list nat) : M (list nat) :=
  match k with
  | O => mret x
  | S k' =>
      j ← randbelow (Z.of_nat k + 1);
      x' ← swap x k (Z.to_nat j);
      shuffle_from k' x'
  end.

(** [random.shuffle(x)] *)
Definition shuffle (x : list nat) : M (list nat) :=
  shuffle_from (length x - 1)%nat x.

(** [random.seed(s)]: the state becomes a function of [s] alone.  The
    generator algorithm is the parameter [prng]. *)
Definition seed (prng : Z → nat → Z) (s : Z) : rng → rng :=
  λ _, Rng (prng s) 0.

(** A state whose tape is a finite list of draws followed by zeros. *)
Definition rng_of_list (l : list Z) : rng := Rng (λ n, nth n l 0) 0.

End Random.
Import Random.

(** ** Python's float product [int(num_rows * anomaly_percentage)] *)

Module Float.

(** Round half to even of the rational [n / d], [d > 0], [n >= 0]. *)
Definition round_half_even (n d : Z) : Z :=
  let q := n / d in
  let r := n `mod` d in
  if decide (2 * r < d) then q
  else if decide (d < 2 * r) then q + 1
  else if Z.even q then q else q + 1.

(** The binary64 value nearest to [x] (ties to even), as a rational;
    [None] when the rounded magnitude is not finite. *)
Definition round_binary64 (x : Q) : option Q :=
  let n := Z.abs (Qnum x) in
  let d := Z.pos (Qden x) in
  if decide (n = 0) then Some (0 # 1)%Q
  else
    let e0 := Z.log2 n - Z.log2 d in
    let below := if decide (0 ≤ e0) then bool_decide (n < d * 2 ^ e0)
                 else bool_decide (n * 2 ^ (- e0) < d) in
    let e := if below then e0 - 1 else e0 in
    let q := Z.max (e - 52) (-1074) in
    let m := if decide (0 ≤ q) then round_half_even n (d * 2 ^ q)
             else round_half_even (n * 2 ^ (- q)) d in
    let sgn := Z.sgn (Qnum x) in
    if decide (0 ≤ q) then
      if decide (m * 2 ^ q < 2 ^ 1024) then Some ((sgn * m * 2 ^ q) # 1)%Q
      else None
    else Some ((sgn * m) # Z.to_pos (2 ^ (- q)))%Q.

(** A decimal literal of the source text, such as [0.05]. *)
Definition literal (n : Z) (d : positive) : Q :=
  default (0 # 1)%Q (round_binary64 (n # d)%Q).

(** [int(y)] of a finite float: truncation toward zero. *)
Definition int (y : Q) : Z := Z.quot (Qnum y) (Z.pos (Qden y)).

(** [int(num_rows * anomaly_percentage)]: the integer is converted to a
    float, the product is rounded, an infinite product cannot be
    converted. *)
Definition int_of_product (num_rows : Z) (anomaly_percentage : Q) : option Z :=
  nf ← round_binary64 (inject_Z num_rows);
  p ← round_binary64 (Qmult nf anomaly_percentage);
  Some (int p).

End Float.

(** ** Reference data *)

Definition MERCHANTS : list string :=
  [ "Amazon"; "Walmart"; "Starbucks"; "McDonald's"; "Target"; "Home Depot";
    "Best Buy"; "Costco"; "CVS Pharmacy"; "Walgreens"; "Shell"; "Exxon";
    "Whole Foods"; "Trader Joe's"; "Subway"; "Chipotle"; "Netflix"; "Spotify";
    "Apple Store"; "Microsoft Store"; "Google Play"; "Uber"; "Lyft"; "Airbnb";
    "Expedia"; "Delta Airlines"; "United Airlines"; "American Airlines" ].

Definition CATEGORIES : list string :=
  [ "Groceries"; "Restaurants"; "Gas"; "Shopping"; "Entertainment"; "Travel";
    "Utilities"; "Healthcare"; "Transportation"; "Subscription"; "Electronics";
    "Home Improvement"; "Clothing"; "Education"; "Insurance" ].

Definition MERCHANT_CATEGORY_MAP : gmap string string :=
  list_to_map
  [ ("Amazon", "Shopping"); ("Walmart", "Shopping");
    ("Starbucks", "Restaurants"); ("McDonald's", "Restaurants");
    ("Target", "Shopping"); ("Home Depot", "Home Improvement");
    ("Best Buy", "Electronics"); ("Costco", "Groceries");
    ("CVS Pharmacy", "Healthcare"); ("Walgreens", "Healthcare");
    ("Shell", "Gas"); ("Exxon", "Gas"); ("Whole Foods", "Groceries");
    ("Trader Joe's", "Groceries"); ("Subway", "Restaurants");
    ("Chipotle", "Restaurants"); ("Netflix", "Subscription");
    ("Spotify", "Subscription"); ("Apple Store", "Electronics");
    ("Microsoft Store", "Electronics"); ("Google Play", "Subscription");
    ("Uber", "Transportation"); ("Lyft", "Transportation");
    ("Airbnb", "Travel"); ("Expedia", "Travel"); ("Delta Airlines", "Travel");
    ("United Airlines", "Travel"); ("American Airlines", "Travel") ].

Definition LOCATIONS_USA : list string :=
  [ "New York, USA"; "Los Angeles, USA"; "Chicago, USA"; "Houston, USA";
    "Miami, USA"; "Seattle, USA"; "Boston, USA"; "San Francisco, USA" ].

Definition LOCATIONS_INTERNATIONAL : list string :=
  [ "Toronto, Canada"; "Vancouver, Canada"; "London, UK"; "Paris, France";
    "Berlin, Germany"; "Tokyo, Japan"; "Sydney, Australia"; "Dubai, UAE";
    "Singapore"; "Mexico City, Mexico"; "SÃ£o Paulo, Brazil";
    "Buenos Aires, Argentina" ].

Definition LOCATIONS : list string := LOCATIONS_USA ++ LOCATIONS_INTERNATIONAL.

(** ** Amount generator (amounts in cents, table bounds in dollars) *)

Definition ranges : gmap string (Z * Z) :=
  list_to_map
  [ ("Groceries", (15, 200)); ("Restaurants", (8, 150)); ("Gas", (25, 80));
    ("Shopping", (20, 500)); ("Entertainment", (10, 200));
    ("Travel", (100, 2000)); ("Utilities", (50, 300));
    ("Healthcare", (20, 500)); ("Transportation", (5, 100));
    ("Subscription", (5, 50)); ("Electronics", (50, 2000));
    ("Home Improvement", (30, 1000)); ("Clothing", (20, 400));
    ("Education", (100, 2000)); ("Insurance", (50, 500)) ].

(** [ranges.get(category, (10, 200))] *)
Definition category_range (category : string) : Z * Z :=
  default (10, 200) (ranges !! category).

Definition generate_normal_amount (category : string) : M Z :=
  let '(min_amount, max_amount) := category_range category in
  round_uniform (100 * min_amount) (100 * max_amount).

Definition generate_anomalous_amount : M Z :=
  round_uniform (100 * 5000) (100 * 50000).

(** ** Dates *)

(** [timedelta(days=d, hours=h, minutes=m)] in seconds. *)
Definition timedelta (days hours minutes : Z) : Z :=
  86400 * days + 3600 * hours + 60 * minutes.

(** [datetime(2023, 1, 1)], the origin of the time axis. *)
Definition base_date : Z := 0.

(** [base_date + timedelta(days=randint(0, 365), hours=randint(0, 23),
    minutes=randint(0, 59))] *)
Definition random_datetime : M Z :=
  d ← randint 0 365;
  h ← randint 0 23;
  m ← randint 0 59;
  mret (base_date + timedelta d h m).

(** ** The anomaly plan *)

(** The dict stored under a row index.  A [rapid_location_change] entry
    has the key ["first_idx"] only in its second role and the key
    ["timestamp"] only once the first row of the pair was synthesized. *)
Inductive plan_entry : Type :=
  | high_amount
  | rapid_location_change (pair_index pair_id : nat)
      (first_idx : option nat) (timestamp : option Z)
  | repeated_small (merchant location : string) (amount base_time : Z)
      (group_index : nat).

(** [entry["type"]] *)
Definition entry_type (e : plan_entry) : string :=
  match e with
  | high_amount => "high_amount"
  | rapid_location_change _ _ _ _ => "rapid_location_change"
  | repeated_small _ _ _ _ _ => "repeated_small"
  end.

Record plan_state := PlanState {
  anomaly_plan : gmap nat plan_entry;
  idx : nat
}.

(** [range(n)] as a list; empty for [n <= 0]. *)
Definition range (n : Z) : list nat := seq 0 (Z.to_nat n).

(** [sys.maxsize] of a 64-bit build: the largest length a sequence can
    have. *)
Definition maxsize : Z := 2 ^ 63 - 1.

(** [list(range(n))]: the length of the range has to fit the size type,
    beyond [sys.maxsize] the call raises OverflowError.  Below that limit
    memory is taken to suffice. *)
Definition list_range (n : Z) : M (list nat) :=
  if decide (n ≤ maxsize) then mret (range n) else raise.

(** [for x in xs: s = body(x, s)] *)
Fixpoint for_each {A S} (xs : list A) (body : A → S → M S) (s : S) : M S :=
  match xs with
  | [] => mret s
  | x :: xs' => s' ← body x s; for_each xs' body s'
  end.

(** [seq[i:j]]: slices never raise. *)
Definition slice {A} (l : list A) (i j : nat) : list A :=
  take (j - i)%nat (drop i l).

(** [enumerate(l)] *)
Definition enumerate {A} (l : list A) : list (nat * A) :=
  zip (seq 0 (length l)) l.

Definition group_size : nat := 3.

Section Planner.

Variable available_indices : list nat.

(** Body of the loop "Assign high amount anomalies". *)
Definition assign_high (_ : nat) (st : plan_state) : M plan_state :=
  if decide (idx st < length available_indices)%nat then
    k ← index available_indices (idx st);
    mret (PlanState (<[k := high_amount]> (anomaly_plan st)) (idx st + 1))
  else mret st.

(** Body of the loop "Assign rapid location change pairs". *)
Definition assign_pair (pair_num : nat) (st : plan_state) : M plan_state :=
  if decide (idx st + 1 < length available_indices)%nat then
    first_idx ← index available_indices (idx st);
    second_idx ← index available_indices (idx st + 1);
    let plan1 :=
      <[first_idx := rapid_location_change 0 pair_num None None]>
        (anomaly_plan st) in
    let plan2 :=
      <[second_idx := rapid_location_change 1 pair_num (Some first_idx) None]>
        plan1 in
    mret (PlanState plan2 (idx st + 2))
  else mret st.

(** Body of the loop "Assign repeated small transaction groups". *)
Definition assign_group (_ : nat) (st : plan_state) : M plan_state :=
  if decide (idx st + group_size - 1 < length available_indices)%nat then
    let group_indices :=
      slice available_indices (idx st) (idx st + group_size) in
    merchant ← choice MERCHANTS;
    location ← choice LOCATIONS;
    amount ← round_uniform 99 500;
    d ← randint 0 365;
    h ← randint 0 23;
    let base_time := base_date + timedelta d h 0 in
    let plan' :=
      foldl (λ plan '(group_idx, plan_idx),
               <[plan_idx := repeated_small merchant location amount
                               base_time group_idx]> plan)
            (anomaly_plan st) (enumerate group_indices) in
    mret (PlanState plan' (idx st + group_size))
  else mret st.

End Planner.

(** The planning phase of [generate_transactions]: the slot counts, the
    shuffled index list and the three assignment loops. *)
Definition high_amount_count (num_anomalies : Z) : Z := num_anomalies / 3.

Definition rapid_location_pairs (num_anomalies : Z) : Z :=
  (num_anomalies / 3) / 2.

Definition repeated_small_groups (num_anomalies : Z) : Z :=
  (num_anomalies - high_amount_count num_anomalies
     - rapid_location_pairs num_anomalies * 2) / 3.

Definition plan_anomalies (num_rows num_anomalies : Z)
  : M (list nat * plan_state) :=
  indices ← list_range num_rows;
  available_indices ← shuffle indices;
  st1 ← for_each (range (high_amount_count num_anomalies))
           (assign_high available_indices) (PlanState ∅ 0);
  st2 ← for_each (range (rapid_location_pairs num_anomalies))
           (assign_pair available_indices) st1;
  st3 ← for_each (range (repeated_small_groups num_anomalies))
           (assign_group available_indices) st2;
  mret (available_indices, st3).

(** ** Text of integers, floats and dates *)

Module Text.

(** [str(n)] for an integer. *)
Definition str (n : Z) : string :=
  (if decide (n < 0) then "-" else "")
  ++ NilZero.string_of_uint (N.to_uint (Z.to_N (Z.abs n))).

(** [s.zfill(width)] for a string without sign. *)
Definition zfill (width : nat) (s : string) : string :=
  String.concat "" (replicate (width - String.length s) "0") ++ s.

(** [repr] of the float that [round(x, 2)] returned, for an amount of [c]
    cents below 10^16 dollars: the shortest decimal that reads back as the
    same float, so a trailing zero of the fraction is dropped and one
    fractional digit always remains. *)
Definition repr_amount (c : Z) : string :=
  let a := Z.abs c in
  let tenths := (a `mod` 100) / 10 in
  let hundredths := a `mod` 10 in
  (if decide (c < 0) then "-" else "")
  ++ str (a / 100) ++ "." ++ str tenths
  ++ (if decide (hundredths = 0) then "" else str hundredths).

Definition is_leap (y : Z) : bool :=
  bool_decide (y `mod` 4 = 0)
  && (negb (bool_decide (y `mod` 100 = 0)) || bool_decide (y `mod` 400 = 0)).

Definition days_in_year (y : Z) : Z := if is_leap y then 366 else 365.

Definition month_lengths (y : Z) : list Z :=
  [31; if is_leap y then 29 else 28; 31; 30; 31; 30; 31; 31; 30; 31; 30; 31].

(** The year holding day [d] counted from January 1st of year [y]. *)
Fixpoint year_of (fuel : nat) (y d : Z) : Z * Z :=
  match fuel with
  | O => (y, d)
  | S fuel' =>
      if decide (d < days_in_year y) then (y, d)
      else year_of fuel' (y + 1) (d - days_in_year y)
  end.

Fixpoint month_of (lengths : list Z) (m d : Z) : Z * Z :=
  match lengths with
  | [] => (m, d)
  | len :: lengths' =>
      if decide (d < len) then (m, d) else month_of lengths' (m + 1) (d - len)
  end.

(** [t.strftime("%Y-%m-%d %H:%M:%S")] for [t] at or after [base_date]. *)
Definition strftime (t : Z) : string :=
  let days := t / 86400 in
  let secs := t `mod` 86400 in
  let '(y, d) := year_of (Z.to_nat (days / 365 + 1)) 2023 days in
  let '(m, dd) := month_of (month_lengths y) 1 d in
  zfill 4 (str y) ++ "-" ++ zfill 2 (str m) ++ "-" ++ zfill 2 (str (dd + 1))
  ++ " " ++ zfill 2 (str (secs / 3600)) ++ ":"
  ++ zfill 2 (str ((secs `mod` 3600) / 60)) ++ ":"
  ++ zfill 2 (str (secs `mod` 60)).

End Text.

(** ** The record synthesizer *)

(** One output row.  The source keeps [Timestamp] as the [strftime] text
    of the datetime; the embedding keeps the datetime and formats it when
    the row is written, see [Csv.row]. *)
Record transaction := Transaction {
  TransactionID : string;
  AccountID : string;
  Amount : Z;
  Merchant : string;
  Category : string;
  Timestamp : Z;
  Location : string
}.

(** [MERCHANT_CATEGORY_MAP.get(merchant, dflt)] *)
Definition merchant_category (merchant dflt : string) : string :=
  default dflt (MERCHANT_CATEGORY_MAP !! merchant).

(** ["timestamp" in entry], and [entry["timestamp"]] when it holds. *)
Definition entry_timestamp (e : plan_entry) : option Z :=
  match e with
  | rapid_location_change _ _ _ ts => ts
  | _ => None
  end.

(** The variable fields of a row: amount, merchant, category, timestamp,
    location. *)
Definition fields : Type := Z * string * string * Z * string.

Definition synth_high_amount : M fields :=
  amount ← generate_anomalous_amount;
  merchant ← choice MERCHANTS;
  dflt ← choice CATEGORIES;
  let category := merchant_category merchant dflt in
  location ← choice LOCATIONS;
  timestamp ← random_datetime;
  mret (amount, merchant, category, timestamp, location).

Definition synth_rapid (anomaly_plan : gmap nat plan_entry) (i : nat)
    (pair_index pair_id : nat) (first_idx : option nat)
    (timestamp : option Z) : M (fields * gmap nat plan_entry) :=
  merchant ← choice MERCHANTS;
  dflt ← choice CATEGORIES;
  let category := merchant_category merchant dflt in
  amount ← generate_normal_amount category;
  if decide (pair_index = 0%nat) then
    location ← choice LOCATIONS_USA;
    timestamp_obj ← random_datetime;
    mret ((amount, merchant, category, timestamp_obj, location),
          <[i := rapid_location_change pair_index pair_id first_idx
                   (Some timestamp_obj)]> anomaly_plan)
  else
    location ← choice LOCATIONS_INTERNATIONAL;
    (* [anomaly_plan.get(first_idx) if first_idx else None]: the row
       index 0 is falsy, like an absent key *)
    let first_plan :=
      match first_idx with
      | Some k => if decide (k = 0%nat) then None else anomaly_plan !! k
      | None => None
      end in
    match first_plan ≫= entry_timestamp with
    | Some first_timestamp =>
        m ← randint 1 5;
        mret ((amount, merchant, category,
               first_timestamp + timedelta 0 0 m, location), anomaly_plan)
    | None =>
        timestamp_obj ← random_datetime;
        mret ((amount, merchant, category, timestamp_obj, location),
              anomaly_plan)
    end.

Definition synth_repeated (merchant location : string) (amount base_time : Z)
    (group_index : nat) : M fields :=
  let category := merchant_category merchant "Shopping" in
  step ← randint 5 20;
  let group_minutes := Z.of_nat group_index * step in
  mret (amount, merchant, category, base_time + timedelta 0 0 group_minutes,
        location).

Definition synth_normal : M fields :=
  merchant ← choice MERCHANTS;
  dflt ← choice CATEGORIES;
  let category := merchant_category merchant dflt in
  amount ← generate_normal_amount category;
  u ← random53;
  (* [random.random() < 0.7]: the float 0.7 is 6305039478318694 / 2^53 *)
  location ← (if decide (u < 6305039478318694) then choice LOCATIONS_USA
              else choice LOCATIONS);
  timestamp ← random_datetime;
  mret (amount, merchant, category, timestamp, location).

(** The body of the loop "Generate transactions" for row [i]. *)
Definition synth_row (i : nat) (anomaly_plan : gmap nat plan_entry)
  : M (transaction * gmap nat plan_entry) :=
  let transaction_id := "TXN" ++ Text.zfill 6 (Text.str (Z.of_nat i + 1)) in
  a ← randint 1 50;
  let account_id := "ACC" ++ Text.zfill 4 (Text.str a) in
  '(amount, merchant, category, timestamp, location, plan') ←
    match anomaly_plan !! i with
    | Some high_amount =>
        f ← synth_high_amount; mret (f, anomaly_plan)
    | Some (rapid_location_change pair_index pair_id first_idx ts) =>
        synth_rapid anomaly_plan i pair_index pair_id first_idx ts
    | Some (repeated_small merchant location amount base_time group_index) =>
        f ← synth_repeated merchant location amount base_time group_index;
        mret (f, anomaly_plan)
    | None =>
        f ← synth_normal; mret (f, anomaly_plan)
    end;
  mret (Transaction transaction_id account_id amount merchant category
          timestamp location, plan').

Definition synth_step (i : nat)
    (st : list transaction * gmap nat plan_entry)
  : M (list transaction * gmap nat plan_entry) :=
  '(t, plan') ← synth_row i st.2;
  mret ((st.1 ++ [t])%list, plan').

Definition synthesize (num_rows : Z) (anomaly_plan : gmap nat plan_entry)
  : M (list transaction * gmap nat plan_entry) :=
  for_each (range num_rows) synth_step ([], anomaly_plan).

Definition generate_transactions (num_rows : Z) (anomaly_percentage : Q)
  : M (list transaction) :=
  num_anomalies ← lift (Float.int_of_product num_rows anomaly_percentage);
  '(_, st) ← plan_anomalies num_rows num_anomalies;
  '(transactions, _) ← synthesize num_rows (anomaly_plan st);
  mret transactions.

(** ** The serializer *)

Module Csv.

Definition quotechar : ascii := ascii_of_nat 34.
Definition cr : ascii := ascii_of_nat 13.
Definition lf : ascii := ascii_of_nat 10.
Definition lineterminator : string := String cr (String lf "").

Fixpoint contains (c : ascii) (s : string) : bool :=
  match s with
  | EmptyString => false
  | String c' s' => bool_decide (c = c') || contains c s'
  end.

(** Double every quote character of a field. *)
Fixpoint escape (s : string) : string :=
  match s with
  | EmptyString => EmptyString
  | String c s' =>
      if decide (c = quotechar) then String c (String c (escape s'))
      else String c (escape s')
  end.

(** Minimal quoting: a field is quoted when it holds the delimiter, the
    quote character or a character of the line terminator. *)
Definition field (s : string) : string :=
  if contains "," s || contains quotechar s || contains cr s || contains lf s
  then String quotechar (escape s) ++ String quotechar ""
  else s.

Definition line (cells : list string) : string :=
  String.concat "," (field <$> cells) ++ lineterminator.

Definition fieldnames : list string :=
  [ "TransactionID"; "AccountID"; "Amount"; "Merchant"; "Category";
    "Timestamp"; "Location" ].

(** The text written for the [Amount] cell. *)
Definition amount_cell (t : transaction) : string :=
  Text.repr_amount (Amount t).

Definition row (t : transaction) : string :=
  line [ TransactionID t; AccountID t; amount_cell t; Merchant t;
         Category t; Text.strftime (Timestamp t); Location t ].

(** The lines of the file, header first. *)
Definition lines (transactions : list transaction) : list string :=
  line fieldnames :: (row <$> transactions).

(** [write_csv(transactions)]: the contents of the file. *)
Definition write_csv (transactions : list transaction) : string :=
  String.concat "" (lines transactions).

End Csv.

(** ** The console summary of the entry point *)

Module Console.

(** The line [write_csv] prints after writing. *)
Definition written_line (transactions : list transaction) (filename : string)
  : string :=
  "Successfully generated " ++ Text.str (Z.of_nat (length transactions))
  ++ " transactions in " ++ filename.

(** [f"{i+1}. {txn['TransactionID']}: ${txn['Amount']} at
    {txn['Merchant']} ({txn['Location']})"] *)
Definition sample_line (i : nat) (txn : transaction) : string :=
  Text.str (Z.of_nat i + 1) ++ ". " ++ TransactionID txn ++ ": $"
  ++ Text.repr_amount (Amount txn) ++ " at " ++ Merchant txn
  ++ " (" ++ Location txn ++ ")".

(** [[t for t in transactions if t['Amount'] > 5000]] *)
Definition high_value (transactions : list transaction) : list transaction :=
  filter (λ t, 100 * 5000 < Amount t) transactions.

(** [f"  {txn['TransactionID']}: ${txn['Amount']} at {txn['Merchant']}"] *)
Definition high_value_line (txn : transaction) : string :=
  "  " ++ TransactionID txn ++ ": $" ++ Text.repr_amount (Amount txn)
  ++ " at " ++ Merchant txn.

(** The lines [__main__] prints once the records are generated. *)
Definition summary (transactions : list transaction) : list string :=
  [ written_line transactions "transactions.csv"; ""; "Sample transactions:" ]
  ++ imap sample_line (take 5 transactions)
  ++ [ ""; "High-value transactions (>$5000): "
             ++ Text.str (Z.of_nat (length (high_value transactions))) ]
  ++ (if decide (high_value transactions = []) then []
      else "Sample high-value transactions:"
           :: (high_value_line <$> take 3 (high_value transactions))).

End Console.

(** ** The script's entry point *)

Section Main.

(** The generator behind [random.seed], a parameter of the model. *)
Variable prng : Z → nat → Z.

(** [random.seed(s); generate_transactions(n, f); write_csv(...)], run in
    a process whose random source starts in the state [g0]. *)
Definition run (s : Z) (num_rows : Z) (anomaly_percentage : Q) (g0 : rng)
  : option (list transaction * string) :=
  let g := seed prng s g0 in
  match generate_transactions num_rows anomaly_percentage g with
  | Some (transactions, _) => Some (transactions, Csv.write_csv transactions)
  | None => None
  end.

(** The same without the call to [random.seed]. *)
Definition run_unseeded (num_rows : Z) (anomaly_percentage : Q) (g0 : rng)
  : option (list transaction * string) :=
  match generate_transactions num_rows anomaly_percentage g0 with
  | Some (transactions, _) => Some (transactions, Csv.write_csv transactions)
  | None => None
  end.

(** [__main__]: the records, the contents of the file and the lines
    printed. *)
Definition main (g0 : rng)
  : option (list transaction * string * list string) :=
  match run 42 500 (Float.literal 5 100) g0 with
  | Some (transactions, file) =>
      Some (transactions, file, Console.summary transactions)
  | None => None
  end.

End Main.

(** * Specification: predicates and sample inputs *)

(** ** Total correctness in the monad [M] *)

(** [always m P]: from every state of the random source, [m] returns
    without raising and its result satisfies [P]. *)
Definition always {A} (m : M A) (P : A → Prop) : Prop :=
  ∀ g, ∃ a g', m g = Some (a, g') ∧ P a.

(** ** The planner's invariant *)

(** Number of plan entries of a given type. *)
Definition count_type (ty : string) (plan : gmap nat plan_entry) : nat :=
  size (filter (λ kv, entry_type kv.2 = ty) plan).

(** Every member of a group sits in a complete triple of rows that carry
    the same merchant, location, amount and base time, at the ordinal
    positions 0, 1 and 2. *)
Definition group_complete (plan : gmap nat plan_entry) : Prop :=
  ∀ i m l a bt k,
    plan !! i = Some (repeated_small m l a bt k) →
    ∃ i0 i1 i2,
      NoDup [i0; i1; i2] ∧
      plan !! i0 = Some (repeated_small m l a bt 0) ∧
      plan !! i1 = Some (repeated_small m l a bt 1) ∧
      plan !! i2 = Some (repeated_small m l a bt 2) ∧
      [i0; i1; i2] !! k = Some i.

(** What the planner writes into an entry. *)
Definition entry_fresh (e : plan_entry) : Prop :=
  match e with
  | high_amount => True
  | rapid_location_change pair_index _ _ ts =>
      ts = None ∧ (pair_index < 2)%nat
  | repeated_small m l a bt k =>
      m ∈ MERCHANTS ∧ l ∈ LOCATIONS ∧ 99 ≤ a ≤ 500 ∧
      0 ≤ bt ∧ bt `mod` 3600 = 0 ∧ (k < 3)%nat
  end.

(** The invariant of the three assignment loops. *)
Record planned (av : list nat) (st : plan_state) : Prop := Planned {
  planned_idx : (idx st ≤ length av)%nat;
  planned_dom : dom (anomaly_plan st) = list_to_set (take (idx st) av);
  planned_groups : group_complete (anomaly_plan st);
  planned_fresh : ∀ i e, anomaly_plan st !! i = Some e → entry_fresh e
}.

(** The effect of one slot that needs [need] indices and writes entries
    of type [ty]: either there is room and exactly [need] new entries are
    written, or the slot is skipped and nothing changes. *)
Definition slot_effect (av : list nat) (need : nat) (ty : string)
    (st st' : plan_state) : Prop :=
  planned av st' ∧
  (((idx st + need ≤ length av)%nat ∧ idx st' = (idx st + need)%nat ∧
    ∀ ty', count_type ty' (anomaly_plan st')
           = (count_type ty' (anomaly_plan st)
              + if decide (ty' = ty) then need else 0)%nat)
   ∨ (¬ (idx st + need ≤ length av)%nat ∧ st' = st)).

(** The postcondition of the planning phase. *)
Definition plan_post (num_rows num_anomalies : Z)
    (r : list nat * plan_state) : Prop :=
  let h := Z.to_nat (high_amount_count num_anomalies) in
  let p := Z.to_nat (rapid_location_pairs num_anomalies) in
  let s := Z.to_nat (repeated_small_groups num_anomalies) in
  r.1 ≡ₚ range num_rows ∧
  planned r.1 r.2 ∧
  ((h + 2 * p + 3 * s ≤ Z.to_nat num_rows)%nat →
   idx r.2 = (h + 2 * p + 3 * s)%nat ∧
   count_type "high_amount" (anomaly_plan r.2) = h ∧
   count_type "rapid_location_change" (anomaly_plan r.2) = (2 * p)%nat ∧
   count_type "repeated_small" (anomaly_plan r.2) = (3 * s)%nat).

(** ** The synthesizer's invariant *)

(** An entry without its ["timestamp"] key. *)
Definition erase_timestamp (e : plan_entry) : plan_entry :=
  match e with
  | rapid_location_change pair_index pair_id first_idx _ =>
      rapid_location_change pair_index pair_id first_idx None
  | _ => e
  end.

(** [plan] is [plan0] up to the timestamps written back during synthesis. *)
Definition plan_rel (plan0 plan : gmap nat plan_entry) : Prop :=
  ∀ i, erase_timestamp <$> plan !! i = erase_timestamp <$> plan0 !! i.

(** The timestamps written back are whole minutes. *)
Definition timestamps_aligned (plan : gmap nat plan_entry) : Prop :=
  ∀ i e t, plan !! i = Some e → entry_timestamp e = Some t →
           t `mod` 60 = 0 ∧ 0 ≤ t.

(** The amount of a row drawn by [generate_normal_amount]. *)
Definition normal_amount (t : transaction) : Prop :=
  100 * (category_range (Category t)).1 ≤ Amount t
      ≤ 100 * (category_range (Category t)).2
  ∧ Amount t < 500000.

(** What row [i] looks like, by the entry planned for it. *)
Definition row_ok (plan0 : gmap nat plan_entry) (i : nat) (t : transaction)
  : Prop :=
  Timestamp t `mod` 60 = 0 ∧ 0 ≤ Timestamp t ∧ 0 ≤ Amount t ∧
  match plan0 !! i with
  | None =>
      normal_amount t ∧ Location t ∈ LOCATIONS ∧
      Timestamp t ≤ base_date + timedelta 365 23 59
  | Some high_amount =>
      500000 ≤ Amount t ≤ 5000000
  | Some (rapid_location_change pair_index _ _ _) =>
      normal_amount t ∧
      Location t ∈ (if decide (pair_index = 0%nat) then LOCATIONS_USA
                    else LOCATIONS_INTERNATIONAL)
  | Some (repeated_small m l a bt k) =>
      Merchant t = m ∧ Location t = l ∧ Amount t = a ∧
      ∃ step, 5 ≤ step ≤ 20 ∧
              Timestamp t = bt + timedelta 0 0 (Z.of_nat k * step)
  end.

Definition fields_row (i : nat) (a : Z) (f : fields) : transaction :=
  let '(amount, merchant, category, timestamp, location) := f in
  Transaction ("TXN" ++ Text.zfill 6 (Text.str (Z.of_nat i + 1)))
              ("ACC" ++ Text.zfill 4 (Text.str a))
              amount merchant category timestamp location.

(** ** Runs and sample tapes *)

(** A run of [generate_transactions] from the state [g]: [num_anomalies]
    is the integer [int(num_rows * anomaly_percentage)], [av] the shuffled
    index list, [st] the planner's final state and [transactions] the
    records returned.  There is such a run from every state when the
    product is a finite float and [num_rows] is at most [sys.maxsize];
    otherwise generation raises. *)
Definition run_of (num_rows : Z) (anomaly_percentage : Q) (g : rng)
    (num_anomalies : Z) (av : list nat) (st : plan_state)
    (transactions : list transaction) : Prop :=
  ∃ g1 plan' g2,
    plan_anomalies num_rows num_anomalies g = Some ((av, st), g1) ∧
    synthesize num_rows (anomaly_plan st) g1
      = Some ((transactions, plan'), g2) ∧
    generate_transactions num_rows anomaly_percentage g
      = Some (transactions, g2).

(** Sample tapes.  [tape_pair_reversed] shuffles six rows to
    [0, 1, 3, 2, 4, 5], so the pair has its first row at index 3 and its
    second row at index 2.  [tape_pair_row_zero] shuffles them to
    [2, 1, 0, 3, 4, 5]: the pair has its first row at index 0.
    [tape_group] leaves nine rows in order and draws the step 20 for the
    second member of the group and the step 5 for the third. *)
Definition tape_pair_reversed : rng :=
  rng_of_list ([5; 4; 2; 2; 1] ++ replicate 16 0
               ++ [0; 0; 0; 0; 0; 3; 14; 7] ++ [0; 0; 0; 0; 0; 10; 9; 30])%list.

Definition tape_pair_row_zero : rng :=
  rng_of_list ([5; 4; 3; 0; 1] ++ [0; 0; 0; 0; 0; 10; 9; 30]
               ++ replicate 16 0 ++ [0; 0; 0; 0; 0; 200; 14; 7])%list.

Definition tape_group : rng :=
  rng_of_list ([8; 7; 6; 5; 4; 3; 2; 1] ++ replicate 46 0 ++ [15])%list.

(** ** Reading the file back *)

(** The cells of the data line of a record. *)
Definition record_cells (t : transaction) : list string :=
  [ TransactionID t; AccountID t; Csv.amount_cell t; Merchant t;
    Category t; Text.strftime (Timestamp t); Location t ].

Module CsvRead.

(** The states of a reader of delimited text for the dialect the
    serializer writes: comma, double quote, CR LF. *)
Inductive state : Type :=
  | RecordStart
  | FieldStart
  | Unquoted (cur : string)
  | Quoted (cur : string)
  | QuoteSeen (cur : string)
  | AfterCR.

Definition snoc (s : string) (c : ascii) : string := s ++ String c "".

(** [row] holds the cells of the current record, [rows] the records read
    so far.  The text must end with a line terminator. *)
Fixpoint read (st : state) (row : list string) (rows : list (list string))
    (s : string) : option (list (list string)) :=
  match s with
  | EmptyString =>
      match st with
      | RecordStart => Some rows
      | _ => None
      end
  | String c s' =>
      match st with
      | RecordStart | FieldStart =>
          if decide (c = Csv.quotechar) then read (Quoted "") row rows s'
          else if decide (c = ","%char)
          then read FieldStart (row ++ [""])%list rows s'
          else if decide (c = Csv.cr)
          then read AfterCR (row ++ [""])%list rows s'
          else if decide (c = Csv.lf) then None
          else read (Unquoted (String c "")) row rows s'
      | Unquoted cur =>
          if decide (c = ","%char)
          then read FieldStart (row ++ [cur])%list rows s'
          else if decide (c = Csv.cr)
          then read AfterCR (row ++ [cur])%list rows s'
          else if decide (c = Csv.quotechar) then None
          else if decide (c = Csv.lf) then None
          else read (Unquoted (snoc cur c)) row rows s'
      | Quoted cur =>
          if decide (c = Csv.quotechar) then read (QuoteSeen cur) row rows s'
          else read (Quoted (snoc cur c)) row rows s'
      | QuoteSeen cur =>
          if decide (c = Csv.quotechar)
          then read (Quoted (snoc cur c)) row rows s'
          else if decide (c = ","%char)
          then read FieldStart (row ++ [cur])%list rows s'
          else if decide (c = Csv.cr)
          then read AfterCR (row ++ [cur])%list rows s'
          else None
      | AfterCR =>
          if decide (c = Csv.lf)
          then read RecordStart [] (rows ++ [row])%list s'
          else None
      end
  end.

Definition read_csv (s : string) : option (list (list string)) :=
  read RecordStart [] [] s.

End CsvRead.

(** ** The properties of the claims *)

(** The amount of every row, by the entry planned for the row. *)
Definition amounts_by_kind (plan : gmap nat plan_entry)
    (transactions : list transaction) : Prop :=
  ∀ i t, transactions !! i = Some t →
    match plan !! i with
    | None | Some (rapid_location_change _ _ _ _) =>
        100 * (category_range (Category t)).1 ≤ Amount t
          ≤ 100 * (category_range (Category t)).2
        ∧ Amount t < 100 * 5000
    | Some high_amount => 100 * 5000 ≤ Amount t ≤ 100 * 50000
    | Some (repeated_small _ _ _ _ _) => True
    end.

(** The outcome of a well-behaved generation for [num_rows] rows. *)
Definition generation_completes (num_rows num_anomalies : Z)
    (st : plan_state) (transactions : list transaction) : Prop :=
  Z.of_nat (length transactions) = num_rows ∧
  (∃ rows,
     CsvRead.read_csv (Csv.write_csv transactions)
     = Some (Csv.fieldnames :: rows) ∧
     length rows = Z.to_nat num_rows) ∧
  (num_anomalies < 0 → anomaly_plan st = ∅) ∧
  (num_rows = 0 →
   transactions = [] ∧
   Csv.write_csv transactions = Csv.line Csv.fieldnames).

(** The pair property: whenever rows [i] and [j] are planned as the first
    and the second row of one pair, the second record is 1 to 5 minutes
    after the first, the first location is domestic and the second is
    international. *)
Definition pair_window (plan : gmap nat plan_entry)
    (transactions : list transaction) : Prop :=
  ∀ i j pair_id ts ts' t1 t2,
    plan !! i = Some (rapid_location_change 0 pair_id None ts) →
    plan !! j = Some (rapid_location_change 1 pair_id (Some i) ts') →
    transactions !! i = Some t1 →
    transactions !! j = Some t2 →
    timedelta 0 0 1 ≤ Timestamp t2 - Timestamp t1 ≤ timedelta 0 0 5 ∧
    Location t1 ∈ LOCATIONS_USA ∧
    Location t2 ∈ LOCATIONS_INTERNATIONAL.

(** Rows [i0], [i1], [i2] are the members 0, 1, 2 of one planned group,
    with records [t0], [t1], [t2]. *)
Definition group_rows (plan : gmap nat plan_entry)
    (transactions : list transaction) (m l : string) (a bt : Z)
    (i0 i1 i2 : nat) (t0 t1 t2 : transaction) : Prop :=
  NoDup [i0; i1; i2] ∧
  plan !! i0 = Some (repeated_small m l a bt 0) ∧
  plan !! i1 = Some (repeated_small m l a bt 1) ∧
  plan !! i2 = Some (repeated_small m l a bt 2) ∧
  transactions !! i0 = Some t0 ∧
  transactions !! i1 = Some t1 ∧
  transactions !! i2 = Some t2.

Definition group_shared (m l : string) (a : Z) (t0 t1 t2 : transaction)
  : Prop :=
  Forall (λ t, Merchant t = m ∧ Location t = l ∧ Amount t = a) [t0; t1; t2].

(** The group property as claimed: shared fields, timestamps in ordinal
    order, within one hour. *)
Definition group_ordered (plan : gmap nat plan_entry)
    (transactions : list transaction) : Prop :=
  ∀ m l a bt i0 i1 i2 t0 t1 t2,
    group_rows plan transactions m l a bt i0 i1 i2 t0 t1 t2 →
    group_shared m l a t0 t1 t2 ∧
    Timestamp t0 ≤ Timestamp t1 ∧ Timestamp t1 ≤ Timestamp t2 ∧
    Timestamp t2 - Timestamp t0 ≤ 3600.

(** The group property as the code has it: the step is drawn afresh for
    every member, so member 1 is 5 to 20 minutes and member 2 is 10 to 40
    minutes after the base time, in either order. *)
Definition group_timing (bt : Z) (t0 t1 t2 : transaction) : Prop :=
  Timestamp t0 = bt ∧
  (∃ step, 5 ≤ step ≤ 20 ∧ Timestamp t1 = bt + timedelta 0 0 (1 * step)) ∧
  (∃ step, 5 ≤ step ≤ 20 ∧ Timestamp t2 = bt + timedelta 0 0 (2 * step)) ∧
  Forall (λ t, bt ≤ Timestamp t ≤ bt + timedelta 0 0 40) [t0; t1; t2].

Definition groups_as_built (plan : gmap nat plan_entry)
    (transactions : list transaction) : Prop :=
  ∀ i m l a bt k,
    plan !! i = Some (repeated_small m l a bt k) →
    ∃ i0 i1 i2 t0 t1 t2,
      group_rows plan transactions m l a bt i0 i1 i2 t0 t1 t2 ∧
      [i0; i1; i2] !! k = Some i ∧
      group_shared m l a t0 t1 t2 ∧
      group_timing bt t0 t1 t2.

(** ** Reading the Amount cell back *)

(** Reading a decimal cell back: the text before and after the point. *)
Fixpoint split_point (s : string) : option (string * string) :=
  match s with
  | EmptyString => None
  | String c s' =>
      if decide (c = "."%char) then Some (EmptyString, s')
      else '(a, b) ← split_point s'; Some (String c a, b)
  end.

Definition parse_digits (s : string) : option Z :=
  (λ d, Z.of_N (N.of_uint d)) <$> NilZero.uint_of_string s.

(** The number of digits after the point. *)
Definition fraction_digits (s : string) : option nat :=
  (λ p, String.length p.2) <$> split_point s.

(** The value of a cell with one or two fractional digits, in cents. *)
Definition parse_amount (s : string) : option Z :=
  '(whole, frac) ← split_point s;
  w ← parse_digits whole;
  f ← parse_digits frac;
  match String.length frac with
  | 1%nat => Some (100 * w + 10 * f)
  | 2%nat => Some (100 * w + f)
  | _ => None
  end.

(** The claimed format: two fractional digits in every Amount cell. *)
Definition two_fraction_digits (transactions : list transaction) : Prop :=
  ∀ t, t ∈ transactions → fraction_digits (Csv.amount_cell t) = Some 2%nat.

(** The format as written: one or two fractional digits, and the cell
    reads back as the amount. *)
Definition amount_cells_read_back (transactions : list transaction) : Prop :=
  ∀ t, t ∈ transactions →
    (fraction_digits (Csv.amount_cell t) = Some 1%nat ∨
     fraction_digits (Csv.amount_cell t) = Some 2%nat) ∧
    parse_amount (Csv.amount_cell t) = Some (Amount t).

(** The fractional part of the text of [repr_amount]. *)
Definition fraction_text (tenths hundredths : Z) : string :=
  Text.str tenths
  ++ (if decide (hundredths = 0) then "" else Text.str hundredths).

(** ** Row identifiers and pairs in order *)

(** The identifier of row [i]: [TXN] and [i + 1] on six digits. *)
Definition row_id (i : nat) : string :=
  "TXN" ++ Text.zfill 6 (Text.str (Z.of_nat i + 1)).

(** What the synthesis of row [i] does to the plan and, for the second
    row of a pair, how its timestamp follows the stored one. *)
Definition pair_step (plan : gmap nat plan_entry) (i : nat)
    (r : transaction * gmap nat plan_entry) : Prop :=
  TransactionID r.1 = row_id i ∧
  (∀ k, k ≠ i → r.2 !! k = plan !! k) ∧
  match plan !! i with
  | Some (rapid_location_change pair_index _ first_idx _) =>
      if decide (pair_index = 0%nat)
      then r.2 !! i ≫= entry_timestamp = Some (Timestamp r.1)
      else ∀ k t0, first_idx = Some k → k ≠ 0%nat →
                   plan !! k ≫= entry_timestamp = Some t0 →
                   ∃ m, 1 ≤ m ≤ 5 ∧ Timestamp r.1 = t0 + timedelta 0 0 m
  | _ => True
  end.

(** The pair property restricted to pairs whose first row has a non-zero
    index, smaller than the index of the second row. *)
Definition pair_window_in_order (plan : gmap nat plan_entry)
    (transactions : list transaction) : Prop :=
  ∀ i j pair_id ts ts' t1 t2,
    plan !! i = Some (rapid_location_change 0 pair_id None ts) →
    plan !! j = Some (rapid_location_change 1 pair_id (Some i) ts') →
    transactions !! i = Some t1 →
    transactions !! j = Some t2 →
    i ≠ 0%nat → (i < j)%nat →
    timedelta 0 0 1 ≤ Timestamp t2 - Timestamp t1 ≤ timedelta 0 0 5 ∧
    Location t1 ∈ LOCATIONS_USA ∧
    Location t2 ∈ LOCATIONS_INTERNATIONAL.

(** The loop invariant behind [pair_window_in_order]: the timestamp stored
    in the entry of a synthesized first row is the timestamp of its
    record, and every second row synthesized after its first one follows
    it by 1 to 5 minutes. *)
Definition pairs_invariant (plan0 : gmap nat plan_entry) (n : nat)
    (st : list transaction * gmap nat plan_entry) : Prop :=
  length st.1 = n ∧ plan_rel plan0 st.2 ∧ timestamps_aligned st.2 ∧
  (∀ r t, st.1 !! r = Some t → TransactionID t = row_id r) ∧
  (∀ r t pair_id first_idx ts,
     st.1 !! r = Some t →
     st.2 !! r = Some (rapid_location_change 0 pair_id first_idx ts) →
     ts = Some (Timestamp t)) ∧
  (∀ i j pair_id ts ts' t1 t2,
     plan0 !! i = Some (rapid_location_change 0 pair_id None ts) →
     plan0 !! j = Some (rapid_location_change 1 pair_id (Some i) ts') →
     st.1 !! i = Some t1 → st.1 !! j = Some t2 →
     i ≠ 0%nat → (i < j)%nat →
     ∃ m, 1 ≤ m ≤ 5 ∧ Timestamp t2 = Timestamp t1 + timedelta 0 0 m).

(** ** Predicates of the further properties *)

#[local] Instance plan_entry_eq_dec : EqDecision plan_entry.
Proof. solve_decision. Defined.

(** The rows the console summary reports as high-value are planned
    high-amount rows, and every planned high-amount row whose amount is not
    exactly 5000 dollars is reported. *)
Definition high_value_rows (plan : gmap nat plan_entry)
    (transactions : list transaction) : Prop :=
  (∀ t, t ∈ Console.high_value transactions →
        ∃ i, transactions !! i = Some t ∧ plan !! i = Some high_amount) ∧
  (∀ i t, transactions !! i = Some t → plan !! i = Some high_amount →
          Amount t ≠ 100 * 5000 → t ∈ Console.high_value transactions) ∧
  (length (Console.high_value transactions)
   ≤ count_type "high_amount" plan)%nat.

(** What the entry point prints for 500 records: the report of
    [write_csv], five sample lines, the count [h] of the records above
    5000 and up to three of them. *)
Definition summary_as_printed (plan : gmap nat plan_entry)
    (transactions : list transaction) (printed : list string) : Prop :=
  ∃ samples h listed,
    printed
    = ([ "Successfully generated 500 transactions in transactions.csv";
         ""; "Sample transactions:" ]
       ++ samples
       ++ [ ""; String.append "High-value transactions (>$5000): "
                                (Text.str (Z.of_nat h)) ]
       ++ listed)%list ∧
    length samples = 5%nat ∧
    (∀ i, (i < 5)%nat →
          ∃ t, transactions !! i = Some t ∧ TransactionID t = row_id i ∧
               samples !! i = Some (Console.sample_line i t)) ∧
    h = length (filter (λ t, 100 * 5000 < Amount t) transactions) ∧
    (h ≤ 8)%nat ∧
    (h = 0%nat → listed = []) ∧
    ((0 < h)%nat →
     ∃ shown,
       listed = "Sample high-value transactions:" :: shown ∧
       length shown = (3 `min` h)%nat ∧
       ∀ l, l ∈ shown →
            ∃ i t, transactions !! i = Some t ∧
                   plan !! i = Some high_amount ∧
                   l = Console.high_value_line t).

(** The amount of every member of a group. *)
Definition group_amounts (plan : gmap nat plan_entry)
    (transactions : list transaction) : Prop :=
  ∀ i t m l a bt k,
    plan !! i = Some (repeated_small m l a bt k) →
    transactions !! i = Some t →
    Amount t = a ∧ 99 ≤ Amount t ≤ 500.

(** The number of rows the planner fills when every slot has room. *)
Definition planned_rows (num_anomalies : Z) : Z :=
  high_amount_count num_anomalies + 2 * rapid_location_pairs num_anomalies
  + 3 * repeated_small_groups num_anomalies.

(** Every row is synthesized as a normal row. *)
Definition all_rows_normal (transactions : list transaction) : Prop :=
  ∀ t, t ∈ transactions →
    normal_amount t ∧ Location t ∈ LOCATIONS ∧
    base_date ≤ Timestamp t ≤ base_date + timedelta 365 23 59.

(** The two entries of a pair point at each other: a first entry has a
    second entry of the same pair whose ["first_idx"] is its row, and a
    second entry's ["first_idx"] is a different row planned as the first
    entry of the same pair. *)
Definition pair_linked (plan : gmap nat plan_entry) : Prop :=
  ∀ j pair_index pair_id first_idx ts,
    plan !! j = Some (rapid_location_change pair_index pair_id first_idx ts) →
    (pair_index = 0%nat ∧ first_idx = None ∧
     ∃ j', j' ≠ j ∧
           plan !! j' = Some (rapid_location_change 1 pair_id (Some j) None))
    ∨ (pair_index = 1%nat ∧
       ∃ i, first_idx = Some i ∧ i ≠ j ∧
            plan !! i = Some (rapid_location_change 0 pair_id None None)).

(** The base time of a group is a whole hour of the coverage days. *)
Definition base_times_bounded (plan : gmap nat plan_entry) : Prop :=
  ∀ i m l a bt k,
    plan !! i = Some (repeated_small m l a bt k) →
    bt ≤ base_date + timedelta 365 23 0.

Definition plan_links (plan : gmap nat plan_entry) : Prop :=
  pair_linked plan ∧ base_times_bounded plan.

(** The categories that some merchant maps to. *)
Definition mapped_categories : list string :=
  [ "Shopping"; "Restaurants"; "Home Improvement"; "Electronics";
    "Groceries"; "Healthcare"; "Gas"; "Subscription"; "Transportation";
    "Travel" ].

(** The fields of a record that come from the reference data. *)
Definition row_fields (t : transaction) : Prop :=
  Merchant t ∈ MERCHANTS ∧
  MERCHANT_CATEGORY_MAP !! Merchant t = Some (Category t) ∧
  Category t ∈ mapped_categories ∧
  Location t ∈ LOCATIONS ∧
  ∃ a, 1 ≤ a ≤ 50 ∧ AccountID t = "ACC" ++ Text.zfill 4 (Text.str a).

(** The latest timestamp of row [i]: the last minute of the last coverage
    day, and up to 5 minutes later for the second row of a pair. *)
Definition row_time_bound (plan0 : gmap nat plan_entry) (i : nat)
    (t : transaction) : Prop :=
  base_date ≤ Timestamp t ∧
  Timestamp t ≤ base_date + timedelta 365 23 59
                + match plan0 !! i with
                  | Some (rapid_location_change (S _) _ _ _) => timedelta 0 0 5
                  | _ => 0
                  end.

(** The timestamps written back lie in the coverage window. *)
Definition timestamps_bounded (plan : gmap nat plan_entry) : Prop :=
  ∀ i e t, plan !! i = Some e → entry_timestamp e = Some t →
           base_date ≤ t ≤ base_date + timedelta 365 23 59.

(** The one mutation of the plan: synthesizing the first row of a pair
    stores the row's timestamp in its entry. *)
Definition written_back (plan : gmap nat plan_entry) (i : nat)
    (r : transaction * gmap nat plan_entry) : Prop :=
  match plan !! i with
  | Some (rapid_location_change 0 pair_id first_idx _) =>
      r.2 = <[i := rapid_location_change 0 pair_id first_idx
                      (Some (Timestamp r.1))]> plan
  | _ => r.2 = plan
  end.

(** The plan after the rows in [transactions] were synthesized from
    [plan0]. *)
Definition plan_after (plan0 : gmap nat plan_entry)
    (transactions : list transaction) (plan : gmap nat plan_entry) : Prop :=
  ∀ i, plan !! i
       = match plan0 !! i, transactions !! i with
         | Some (rapid_location_change 0 pair_id first_idx _), Some t =>
             Some (rapid_location_change 0 pair_id first_idx
                     (Some (Timestamp t)))
         | e, _ => e
         end.

Definition fields_invariant (plan0 : gmap nat plan_entry) (n : nat)
    (st : list transaction * gmap nat plan_entry) : Prop :=
  length st.1 = n ∧ plan_rel plan0 st.2 ∧ timestamps_bounded st.2 ∧
  (∀ i t, st.1 !! i = Some t → row_fields t ∧ row_time_bound plan0 i t) ∧
  plan_after plan0 st.1 st.2.

(** The variable fields of a row come from the reference data and its
    timestamp is at most [bound] seconds after the coverage window. *)
Definition fields_ok (bound : Z) (f : fields) : Prop :=
  let '(amount, merchant, category, timestamp, location) := f in
  merchant ∈ MERCHANTS ∧
  MERCHANT_CATEGORY_MAP !! merchant = Some category ∧
  category ∈ mapped_categories ∧
  location ∈ LOCATIONS ∧
  base_date ≤ timestamp ≤ base_date + timedelta 365 23 59 + bound.

(** Every record is built from the reference data. *)
Definition records_from_reference_data (transactions : list transaction)
  : Prop :=
  ∀ t, t ∈ transactions → row_fields t ∧ Category t ∈ CATEGORIES.

(** Every timestamp lies between [base_date] and the bound of its row,
    hence at or before 2024-01-02 00:04:00. *)
Definition timestamps_in_window (plan : gmap nat plan_entry)
    (transactions : list transaction) : Prop :=
  ∀ i t, transactions !! i = Some t →
    row_time_bound plan i t ∧
    base_date ≤ Timestamp t ≤ base_date + timedelta 366 0 4.

(** The identifiers are those of the rows, and no two records share one. *)
Definition transaction_ids_unique (transactions : list transaction) : Prop :=
  (∀ i t, transactions !! i = Some t → TransactionID t = row_id i) ∧
  (∀ i j t1 t2,
     transactions !! i = Some t1 → transactions !! j = Some t2 →
     TransactionID t1 = TransactionID t2 → i = j).

(** How far a loop of [wanted] slots of [need] indices gets from the
    cursor [start] on a list of [len] indices: [filled] slots, all of them
    unless fewer than [need] indices remain. *)
Definition slots_filled (len start need wanted filled : nat) : Prop :=
  (filled ≤ wanted)%nat ∧
  (start + need * filled ≤ len)%nat ∧
  ((filled < wanted)%nat → (len < start + need * filled + need)%nat).

(** ** Sources that deliver the same draws *)

(** The state of a source [k] draws later. *)
Definition advance (g : rng) (k : nat) : rng := Rng (tape g) (pos g + k).

(** Two sources deliver the same next [k] draws, whatever they delivered
    before and whatever they deliver afterwards. *)
Definition agree (k : nat) (g g' : rng) : Prop :=
  ∀ n, (n < k)%nat → tape g (pos g + n) = tape g' (pos g' + n).

(** [m] reads the random source through the draws it consumes, one after
    the other, and through nothing else: when it returns after [k] draws,
    it returns the same result after [k] draws from every source that
    delivers the same [k] draws. *)
Definition sequential {A} (m : M A) : Prop :=
  ∀ g a g1, m g = Some (a, g1) →
    ∃ k, g1 = advance g k ∧
         ∀ g', agree k g g' → m g' = Some (a, advance g' k).

(** The position of the source after a generation: from a freshly seeded
    source, the number of draws the generation consumed. *)
Definition draws_used (o : option (list transaction * rng)) : nat :=
  match o with
  | Some (_, g1) => pos g1
  | None => 0%nat
  end.

(** Two sample generators: they deliver the same first 9 draws for every
    seed and differ afterwards. *)
Definition prng_sample (s : Z) (n : nat) : Z := s + Z.of_nat n.

Definition prng_sample_prefix (s : Z) (n : nat) : Z :=
  if decide (n < 9)%nat then s + Z.of_nat n else 0.

(** * Lemmas *)

(** ** The float model on known values *)

Example literal_0_05 :
  Float.literal 5 100 = (7205759403792794 # 144115188075855872)%Q.
Proof. vm_compute. reflexivity. Qed.

Example round_ties_to_even :
  Float.round_binary64 (inject_Z (2 ^ 53 + 1)) = Some (inject_Z (2 ^ 53)) ∧
  Float.round_binary64 (inject_Z (2 ^ 53 + 3))
  = Some (inject_Z (2 ^ 53 + 4)).
Proof. split; vm_compute; reflexivity. Qed.

Example product_rounds_up_to_one :
  Float.int_of_product 3 (Float.literal 1 3) = Some 1.
Proof. vm_compute. reflexivity. Qed.

Example product_truncates_toward_zero :
  Float.int_of_product 5 (Float.literal (-1) 2) = Some (-2).
Proof. vm_compute. reflexivity. Qed.

(** ** Rules for [always] *)

Lemma M_bind_Some {A B} (m : M A) (f : A → M B) g b g2 :
  (m ≫= f) g = Some (b, g2) ↔
  ∃ a g1, m g = Some (a, g1) ∧ f a g1 = Some (b, g2).
Proof.
  unfold mbind, M_bind. split.
  - destruct (m g) as [[a g1]|] eqn:E; [eauto | discriminate].
  - intros (a & g1 & -> & H). exact H.
Qed.

Lemma always_ret {A} (a : A) (P : A → Prop) : P a → always (mret a) P.
Proof. intros H g. exists a, g. split; [reflexivity | exact H]. Qed.

Lemma always_bind {A B} (m : M A) (f : A → M B) (P : A → Prop) (Q : B → Prop) :
  always m P → (∀ a, P a → always (f a) Q) → always (m ≫= f) Q.
Proof.
  intros Hm Hf g. destruct (Hm g) as (a & g1 & E & Ha).
  destruct (Hf a Ha g1) as (b & g2 & E' & Hb).
  exists b, g2. split; [| exact Hb]. apply M_bind_Some. eauto.
Qed.

Lemma always_mono {A} (m : M A) (P Q : A → Prop) :
  always m P → (∀ a, P a → Q a) → always m Q.
Proof.
  intros Hm HPQ g. destruct (Hm g) as (a & g' & E & Ha). eauto.
Qed.

Lemma always_next_raw : always next_raw (λ _, True).
Proof. intros g. unfold next_raw. eauto. Qed.

Lemma always_randbelow n :
  0 < n → always (randbelow n) (λ r, 0 ≤ r < n).
Proof.
  intros Hn. unfold randbelow. rewrite decide_True by done.
  eapply always_bind; [apply always_next_raw |].
  intros r _. apply always_ret. apply Z.mod_pos_bound. done.
Qed.

Lemma always_randint a b :
  a ≤ b → always (randint a b) (λ r, a ≤ r ≤ b).
Proof.
  intros Hab. unfold randint.
  eapply always_bind; [apply always_randbelow; lia |].
  intros r Hr. simpl in Hr. apply always_ret. lia.
Qed.

Lemma always_round_uniform lo hi :
  lo ≤ hi → always (round_uniform lo hi) (λ r, lo ≤ r ≤ hi).
Proof.
  intros Hab. unfold round_uniform.
  eapply always_bind; [apply always_next_raw |].
  intros r _. apply always_ret.
  pose proof (Z.mod_pos_bound r (Z.abs (hi - lo) + 1)). lia.
Qed.

Lemma always_random53 : always random53 (λ u, 0 ≤ u < 2 ^ 53).
Proof.
  unfold random53. eapply always_bind; [apply always_next_raw |].
  intros r _. apply always_ret. apply Z.mod_pos_bound. lia.
Qed.

Lemma always_index {A} (l : list A) (i : nat) :
  (i < length l)%nat → always (index l i) (λ x, l !! i = Some x).
Proof.
  intros Hi. unfold index.
  destruct (lookup_lt_is_Some_2 l i Hi) as [x Hx]. rewrite Hx.
  apply always_ret. reflexivity.
Qed.

Lemma always_choice {A} (l : list A) :
  l ≠ [] → always (choice l) (λ x, x ∈ l).
Proof.
  intros Hl. unfold choice.
  eapply always_bind.
  - apply always_randbelow. destruct l; [done | simpl; lia].
  - intros j Hj. simpl in Hj. eapply always_mono.
    + apply always_index. lia.
    + intros x Hx. eapply list_elem_of_lookup_2, Hx.
Qed.

Lemma always_for_each_seq {S} (body : nat → S → M S) (I : nat → S → Prop) :
  ∀ n a s0,
    I a s0 →
    (∀ j s, (a ≤ j < a + n)%nat → I j s → always (body j s) (I (Datatypes.S j))) →
    always (for_each (seq a n) body s0) (I (a + n)%nat).
Proof.
  induction n as [|n IH]; intros a s0 H0 Hstep; simpl.
  - rewrite Nat.add_0_r. apply always_ret, H0.
  - eapply always_bind; [apply Hstep; [lia | exact H0] |].
    intros s1 H1. replace (a + Datatypes.S n)%nat with (Datatypes.S a + n)%nat by lia.
    apply IH; [exact H1 |]. intros j s Hj. apply Hstep. lia.
Qed.

(** ** The shuffle is a permutation *)

Lemma always_swap (x : list nat) i j :
  (i < length x)%nat → (j < length x)%nat →
  always (swap x i j) (λ y, y ≡ₚ x).
Proof.
  intros Hi Hj. unfold swap.
  eapply always_bind; [apply always_index, Hj |]. intros xj Hxj.
  eapply always_bind; [apply always_index, Hi |]. intros xi Hxi.
  apply always_ret.
  destruct (decide (i = j)) as [->|Hne].
  - assert (xi = xj) as -> by congruence.
    rewrite list_insert_insert_eq. rewrite list_insert_id; done.
  - symmetry. apply Permutation_inj. split.
    + by rewrite !length_insert.
    + exists (λ n, if decide (n = i) then j else if decide (n = j) then i else n).
      split.
      * intros a b. repeat case_decide; congruence.
      * intros n. repeat case_decide; subst.
        -- rewrite list_lookup_insert_eq by (rewrite length_insert; lia). done.
        -- rewrite list_lookup_insert_ne by done.
           rewrite list_lookup_insert_eq by lia. done.
        -- rewrite !list_lookup_insert_ne by done. done.
Qed.

Lemma always_shuffle_from k (x : list nat) :
  (k < length x ∨ k = 0)%nat →
  always (shuffle_from k x) (λ y, y ≡ₚ x).
Proof.
  revert x. induction k as [|k IH]; intros x Hk; simpl.
  - apply always_ret. reflexivity.
  - eapply always_bind; [apply always_randbelow; lia |]. intros j Hj. simpl in Hj.
    eapply always_bind; [apply always_swap; lia |]. intros x' Hx'. simpl in Hx'.
    eapply always_mono.
    + apply IH. rewrite (Permutation_length Hx'). lia.
    + intros y Hy. by rewrite Hy.
Qed.

Lemma always_shuffle (x : list nat) : always (shuffle x) (λ y, y ≡ₚ x).
Proof. unfold shuffle. apply always_shuffle_from. lia. Qed.

(** ** The assignment loops of the planner *)

Lemma count_type_insert ty (plan : gmap nat plan_entry) k e :
  plan !! k = None →
  count_type ty (<[k := e]> plan)
  = (count_type ty plan + if decide (entry_type e = ty) then 1 else 0)%nat.
Proof.
  intros Hk. unfold count_type. case_decide as Hty.
  - rewrite map_filter_insert_True by done.
    rewrite map_size_insert_None; [lia |].
    apply map_lookup_filter_None. left. done.
  - rewrite map_filter_insert_not'; [lia | done |].
    intros y Hy. congruence.
Qed.

Lemma count_type_empty ty : count_type ty ∅ = 0%nat.
Proof. unfold count_type. rewrite map_filter_empty. apply map_size_empty. Qed.

Section PlannerFacts.

Variable av : list nat.
Hypothesis av_nodup : NoDup av.

Lemma planned_lookup_None st k j :
  planned av st → (idx st ≤ j)%nat → av !! j = Some k →
  anomaly_plan st !! k = None.
Proof.
  intros Hp Hj Hk. apply not_elem_of_dom.
  rewrite (planned_dom _ _ Hp). rewrite elem_of_list_to_set.
  intros Hin. apply list_elem_of_lookup in Hin as [j' Hj'].
  pose proof (lookup_lt_Some _ _ _ Hj') as Hlt. rewrite length_take in Hlt.
  rewrite lookup_take_lt in Hj' by lia.
  pose proof (NoDup_lookup _ _ _ _ av_nodup Hj' Hk). lia.
Qed.

Lemma planned_size st :
  planned av st → size (anomaly_plan st) = idx st.
Proof.
  intros Hp. rewrite <- size_dom, (planned_dom _ _ Hp).
  rewrite size_list_to_set.
  - rewrite length_take. pose proof (planned_idx _ _ Hp). lia.
  - pose proof av_nodup as ND. rewrite <- (take_drop (idx st) av) in ND.
    apply NoDup_app in ND. tauto.
Qed.

Lemma planned_empty : planned av (PlanState ∅ 0).
Proof.
  constructor; simpl.
  - lia.
  - rewrite dom_empty_L. done.
  - intros i m l a bt k H. rewrite lookup_empty in H. done.
  - intros i e H. rewrite lookup_empty in H. done.
Qed.

Lemma group_complete_insert (plan : gmap nat plan_entry) k e :
  plan !! k = None → (∀ m l a bt j, e ≠ repeated_small m l a bt j) →
  group_complete plan → group_complete (<[k := e]> plan).
Proof.
  intros Hk He Hg i m l a bt j Hi.
  destruct (decide (k = i)) as [->|Hne].
  - rewrite lookup_insert_eq in Hi. inversion Hi. by destruct (He m l a bt j).
  - rewrite lookup_insert_ne in Hi by done.
    destruct (Hg _ _ _ _ _ _ Hi) as (i0 & i1 & i2 & ND & H0 & H1 & H2 & Hj).
    exists i0, i1, i2. split; [done |].
    repeat split; try done;
      (rewrite lookup_insert_ne; [done | congruence]).
Qed.

Lemma assign_high_effect x st :
  planned av st →
  always (assign_high av x st) (slot_effect av 1 "high_amount" st).
Proof.
  intros Hp. unfold assign_high. case_decide as Hroom.
  - eapply always_bind; [apply always_index, Hroom |]. intros k Hk.
    simpl in Hk. apply always_ret.
    pose proof (planned_lookup_None st k (idx st) Hp (le_n _) Hk) as Hnone.
    split; [constructor; simpl |].
    + lia.
    + rewrite dom_insert_L, (planned_dom _ _ Hp).
      rewrite Nat.add_1_r, (take_S_r _ _ _ Hk), list_to_set_app_L. simpl.
      set_solver.
    + apply group_complete_insert; [done | done | apply (planned_groups _ _ Hp)].
    + intros i e Hi. destruct (decide (k = i)) as [->|Hne].
      * rewrite lookup_insert_eq in Hi. by inversion Hi.
      * rewrite lookup_insert_ne in Hi by done.
        apply (planned_fresh _ _ Hp i e Hi).
    + left. simpl. split; [lia |]. split; [done |].
      intros ty'. rewrite count_type_insert by done. simpl.
      repeat case_decide; congruence.
  - apply always_ret. split; [done |]. right. split; [lia | done].
Qed.

Lemma assign_pair_effect pair_num st :
  planned av st →
  always (assign_pair av pair_num st)
         (slot_effect av 2 "rapid_location_change" st).
Proof.
  intros Hp. unfold assign_pair. case_decide as Hroom.
  - eapply always_bind; [apply always_index; lia |]. intros k1 Hk1.
    eapply always_bind; [apply always_index; lia |]. intros k2 Hk2.
    simpl in Hk1, Hk2. apply always_ret.
    pose proof (planned_lookup_None st k1 _ Hp (le_n _) Hk1) as Hn1.
    assert (anomaly_plan st !! k2 = None) as Hn2
      by (eapply planned_lookup_None; [done | | done]; lia).
    assert (k1 ≠ k2) as Hne12.
    { intros ->. pose proof (NoDup_lookup _ _ _ _ av_nodup Hk1 Hk2). lia. }
    split; [constructor; simpl |].
    + lia.
    + rewrite !dom_insert_L, (planned_dom _ _ Hp).
      replace (idx st + 2)%nat with (S (S (idx st))) by lia.
      rewrite Nat.add_1_r in Hk2.
      rewrite (take_S_r _ _ _ Hk2), (take_S_r _ _ _ Hk1).
      rewrite !list_to_set_app_L. simpl. set_solver.
    + apply group_complete_insert; [by rewrite lookup_insert_ne | done |].
      apply group_complete_insert; [done | done | apply (planned_groups _ _ Hp)].
    + intros i e Hi. destruct (decide (k2 = i)) as [->|Hne].
      { rewrite lookup_insert_eq in Hi. inversion Hi. simpl. split; [done | lia]. }
      rewrite lookup_insert_ne in Hi by done.
      destruct (decide (k1 = i)) as [->|Hne'].
      { rewrite lookup_insert_eq in Hi. inversion Hi. simpl. split; [done | lia]. }
      rewrite lookup_insert_ne in Hi by done.
      apply (planned_fresh _ _ Hp i e Hi).
    + left. simpl. split; [lia |]. split; [done |].
      intros ty'. rewrite count_type_insert by (by rewrite lookup_insert_ne).
      rewrite count_type_insert by done. simpl.
      repeat case_decide; try congruence; lia.
  - apply always_ret. split; [done |]. right. split; [lia | done].
Qed.

Lemma slice_three st :
  (idx st + 3 ≤ length av)%nat →
  ∃ k0 k1 k2,
    av !! idx st = Some k0 ∧ av !! (idx st + 1)%nat = Some k1 ∧
    av !! (idx st + 2)%nat = Some k2 ∧
    slice av (idx st) (idx st + group_size) = [k0; k1; k2] ∧
    take (idx st + 3) av = (take (idx st) av ++ [k0; k1; k2])%list.
Proof.
  intros Hroom.
  destruct (lookup_lt_is_Some_2 av (idx st)) as [k0 H0]; [lia |].
  destruct (lookup_lt_is_Some_2 av (idx st + 1)) as [k1 H1]; [lia |].
  destruct (lookup_lt_is_Some_2 av (idx st + 2)) as [k2 H2]; [lia |].
  exists k0, k1, k2. repeat split; try done.
  - unfold slice, group_size.
    replace (idx st + 3 - idx st)%nat with 3%nat by lia.
    rewrite (drop_S _ _ _ H0).
    replace (S (idx st)) with (idx st + 1)%nat by lia.
    rewrite (drop_S _ _ _ H1).
    replace (S (idx st + 1)) with (idx st + 2)%nat by lia.
    rewrite (drop_S _ _ _ H2). reflexivity.
  - replace (idx st + 3)%nat with (S (idx st + 2)) by lia.
    rewrite (take_S_r _ _ _ H2).
    replace (idx st + 2)%nat with (S (idx st + 1)) by lia.
    rewrite (take_S_r _ _ _ H1).
    replace (idx st + 1)%nat with (S (idx st)) by lia.
    rewrite (take_S_r _ _ _ H0). rewrite <- !app_assoc. reflexivity.
Qed.

Lemma assign_group_effect x st :
  planned av st →
  always (assign_group av x st) (slot_effect av 3 "repeated_small" st).
Proof.
  intros Hp. unfold assign_group. case_decide as Hroom.
  - assert (idx st + 3 ≤ length av)%nat as Hroom' by (unfold group_size in *; lia).
    destruct (slice_three st Hroom') as (k0 & k1 & k2 & H0 & H1 & H2 & -> & Htake).
    assert (k0 ≠ k1) as Hne01.
    { intros ->. pose proof (NoDup_lookup _ _ _ _ av_nodup H0 H1). lia. }
    assert (k0 ≠ k2) as Hne02.
    { intros ->. pose proof (NoDup_lookup _ _ _ _ av_nodup H0 H2). lia. }
    assert (k1 ≠ k2) as Hne12.
    { intros ->. pose proof (NoDup_lookup _ _ _ _ av_nodup H1 H2). lia. }
    assert (NoDup [k0; k1; k2]) as ND3.
    { repeat constructor; set_solver. }
    assert ({[k2]} ∪ ({[k1]} ∪ ({[k0]} ∪ dom (anomaly_plan st)))
            = list_to_set (take (idx st + 3) av) :> gset nat) as Hdom.
    { rewrite (planned_dom _ _ Hp), Htake, list_to_set_app_L.
      rewrite !list_to_set_cons, list_to_set_nil. set_solver. }
    eapply always_bind; [apply always_choice; done |]. intros m Hm.
    eapply always_bind; [apply always_choice; done |]. intros l Hl.
    eapply always_bind; [apply always_round_uniform; lia |]. intros a Ha.
    eapply always_bind; [apply always_randint; lia |]. intros d Hd.
    eapply always_bind; [apply always_randint; lia |]. intros h Hh.
    simpl in Hm, Hl, Ha, Hd, Hh. apply always_ret. simpl.
    set (bt := base_date + timedelta d h 0).
    assert (anomaly_plan st !! k0 = None) as Hn0
      by (eapply planned_lookup_None; [done | | done]; lia).
    assert (anomaly_plan st !! k1 = None) as Hn1
      by (eapply planned_lookup_None; [done | | done]; lia).
    assert (anomaly_plan st !! k2 = None) as Hn2
      by (eapply planned_lookup_None; [done | | done]; lia).
    assert (entry_fresh_new : ∀ k, (k < 3)%nat →
              entry_fresh (repeated_small m l a bt k)).
    { intros k Hk. simpl. unfold bt, base_date, timedelta.
      repeat split; try done; try lia.
      replace (0 + (86400 * d + 3600 * h + 60 * 0)) with ((24 * d + h) * 3600)
        by lia.
      apply Z.mod_mul. lia. }
    split; [constructor; simpl |].
    + unfold group_size. lia.
    + rewrite !dom_insert_L. exact Hdom.
    + intros i m' l' a' bt' k Hi.
      match goal with |- context [?new !! _ = Some (repeated_small _ _ _ _ 0)] =>
        assert (new !! k0 = Some (repeated_small m l a bt 0) ∧
                new !! k1 = Some (repeated_small m l a bt 1) ∧
                new !! k2 = Some (repeated_small m l a bt 2)) as (N0 & N1 & N2);
        [ rewrite lookup_insert_eq, (lookup_insert_ne _ k2 k1) by done;
          rewrite lookup_insert_eq, !(lookup_insert_ne _ _ k0) by done;
          rewrite lookup_insert_eq; done |];
        assert (∀ j e, anomaly_plan st !! j = Some e → new !! j = Some e)
          as Hold by (intros j e Hj; rewrite !lookup_insert_ne;
                      [done | congruence ..])
      end.
      rewrite !lookup_insert_Some in Hi.
      destruct Hi as [[<- Hi] | [? [[<- Hi] | [? [[<- Hi] | [? Hi]]]]]].
      1-3: inversion Hi; subst; exists k0, k1, k2; by repeat split.
      destruct (planned_groups _ _ Hp _ _ _ _ _ _ Hi)
        as (i0 & i1 & i2 & ND & G0 & G1 & G2 & Gk).
      exists i0, i1, i2. split; [done |]. repeat split; eauto.
    + intros i e Hi.
      destruct (decide (k2 = i)) as [->|?].
      { rewrite lookup_insert_eq in Hi. inversion Hi. apply entry_fresh_new. lia. }
      rewrite lookup_insert_ne in Hi by done.
      destruct (decide (k1 = i)) as [->|?].
      { rewrite lookup_insert_eq in Hi. inversion Hi. apply entry_fresh_new. lia. }
      rewrite lookup_insert_ne in Hi by done.
      destruct (decide (k0 = i)) as [->|?].
      { rewrite lookup_insert_eq in Hi. inversion Hi. apply entry_fresh_new. lia. }
      rewrite lookup_insert_ne in Hi by done.
      apply (planned_fresh _ _ Hp i e Hi).
    + left. simpl. split; [lia |]. split; [done |].
      intros ty'.
      rewrite count_type_insert by (by rewrite !lookup_insert_ne).
      rewrite count_type_insert by (by rewrite !lookup_insert_ne).
      rewrite count_type_insert by done. simpl.
      repeat case_decide; try congruence; lia.
  - apply always_ret. split; [done |]. right.
    split; [unfold group_size in *; lia | done].
Qed.

End PlannerFacts.

(** A loop of slots of one type: the invariant always holds, and with
    room for every slot each of them is filled. *)
Lemma always_slots av need ty (body : nat → plan_state → M plan_state) :
  (∀ x st, planned av st → always (body x st) (slot_effect av need ty st)) →
  ∀ xs st0,
    planned av st0 →
    always (for_each xs body st0) (λ st',
      planned av st' ∧
      ((idx st0 + need * length xs ≤ length av)%nat →
       idx st' = (idx st0 + need * length xs)%nat ∧
       ∀ ty', count_type ty' (anomaly_plan st')
              = (count_type ty' (anomaly_plan st0)
                 + if decide (ty' = ty) then need * length xs else 0)%nat)).
Proof.
  intros Hbody xs. induction xs as [|x xs IH]; intros st0 Hp; simpl.
  - apply always_ret. split; [done |]. intros _. split; [lia |].
    intros ty'. case_decide; lia.
  - eapply always_bind; [apply Hbody, Hp |]. intros st1 [Hp1 Heff].
    eapply always_mono; [apply IH, Hp1 |]. intros st' [Hp' Hexact].
    simpl in Hexact. split; [done |]. intros Hroom.
    destruct Heff as [(Hr & Hidx & Hcnt) | (Hr & ->)]; [| lia].
    destruct Hexact as [Hidx' Hcnt']; [lia |]. split; [lia |].
    intros ty'. rewrite Hcnt', Hcnt. case_decide; lia.
Qed.

Lemma length_range n : length (range n) = Z.to_nat n.
Proof. unfold range. apply length_seq. Qed.

Lemma NoDup_range n : NoDup (range n).
Proof. unfold range. apply NoDup_seq. Qed.

Lemma always_list_range n :
  n ≤ maxsize → always (list_range n) (λ l, l = range n).
Proof.
  intros Hn. unfold list_range. rewrite decide_True by done.
  by apply always_ret.
Qed.

(** Past [sys.maxsize] rows the index list cannot be built. *)
Lemma plan_anomalies_overflow num_rows num_anomalies g :
  maxsize < num_rows → plan_anomalies num_rows num_anomalies g = None.
Proof.
  intros Hn. unfold plan_anomalies, list_range.
  rewrite decide_False by lia. reflexivity.
Qed.

Lemma always_plan_anomalies num_rows num_anomalies :
  num_rows ≤ maxsize →
  always (plan_anomalies num_rows num_anomalies)
         (plan_post num_rows num_anomalies).
Proof.
  intros Hmax. unfold plan_anomalies.
  eapply always_bind; [by apply always_list_range |]. intros ? ->.
  eapply always_bind; [apply always_shuffle |]. intros av Hav. simpl in Hav.
  assert (NoDup av) as ND by (rewrite Hav; apply NoDup_range).
  assert (length av = Z.to_nat num_rows) as Hlen
    by (rewrite Hav; apply length_range).
  eapply always_bind.
  { apply (always_slots av 1 "high_amount");
      [intros; by apply assign_high_effect | by apply planned_empty]. }
  intros st1 [Hp1 H1].
  eapply always_bind.
  { apply (always_slots av 2 "rapid_location_change");
      [intros; by apply assign_pair_effect | exact Hp1]. }
  intros st2 [Hp2 H2].
  eapply always_bind.
  { apply (always_slots av 3 "repeated_small");
      [intros; by apply assign_group_effect | exact Hp2]. }
  intros st3 [Hp3 H3]. apply always_ret.
  unfold plan_post. simpl in *. split; [done |]. split; [done |].
  rewrite !length_range in *. intros Hroom.
  destruct H1 as [I1 C1]; [lia |].
  destruct H2 as [I2 C2]; [lia |].
  destruct H3 as [I3 C3]; [lia |].
  split; [lia |].
  rewrite !C3, !C2, !C1, !count_type_empty.
  repeat (case_decide; [try discriminate | try congruence]).
  repeat split; lia.
Qed.

(** ** Amounts and dates *)

(** Every configured range, and the default one, lies between 5 and 2000
    dollars. *)
Lemma category_range_bounds category :
  5 ≤ (category_range category).1 ∧
  (category_range category).1 ≤ (category_range category).2 ∧
  (category_range category).2 ≤ 2000.
Proof.
  unfold category_range.
  destruct (ranges !! category) as [[lo hi]|] eqn:E; simpl; [| lia].
  assert (map_Forall (λ _ r, 5 ≤ r.1 ∧ r.1 ≤ r.2 ∧ r.2 ≤ 2000) ranges) as HF.
  { apply map_Forall_to_list. vm_compute map_to_list.
    repeat constructor; simpl; lia. }
  apply (HF _ _ E).
Qed.

Lemma always_generate_normal_amount category :
  always (generate_normal_amount category) (λ a,
    100 * (category_range category).1 ≤ a ≤ 100 * (category_range category).2
    ∧ 0 ≤ a < 500000).
Proof.
  pose proof (category_range_bounds category) as Hb.
  unfold generate_normal_amount.
  destruct (category_range category) as [lo hi]; simpl in *.
  eapply always_mono; [apply always_round_uniform; lia |].
  intros a Ha. simpl in Ha. lia.
Qed.

Lemma always_generate_anomalous_amount :
  always generate_anomalous_amount (λ a, 500000 ≤ a ≤ 5000000).
Proof.
  unfold generate_anomalous_amount.
  eapply always_mono; [apply always_round_uniform; lia |].
  intros a Ha. simpl in Ha. lia.
Qed.

Lemma always_random_datetime :
  always random_datetime (λ t,
    t `mod` 60 = 0 ∧ 0 ≤ t ≤ base_date + timedelta 365 23 59).
Proof.
  unfold random_datetime.
  eapply always_bind; [apply always_randint; lia |]. intros d Hd.
  eapply always_bind; [apply always_randint; lia |]. intros h Hh.
  eapply always_bind; [apply always_randint; lia |]. intros m Hm.
  simpl in Hd, Hh, Hm. apply always_ret. unfold base_date, timedelta.
  split; [| lia].
  replace (0 + (86400 * d + 3600 * h + 60 * m))
    with ((1440 * d + 60 * h + m) * 60) by lia.
  apply Z.mod_mul. lia.
Qed.

(** ** One row of the synthesizer *)

Lemma always_synth_high_amount i a :
  always synth_high_amount (λ f,
    let t := fields_row i a f in
    Timestamp t `mod` 60 = 0 ∧ 0 ≤ Timestamp t ∧
    500000 ≤ Amount t ≤ 5000000).
Proof.
  unfold synth_high_amount.
  eapply always_bind; [apply always_generate_anomalous_amount |].
  intros amount Ha.
  eapply always_bind; [apply always_choice; done |]. intros merchant _.
  eapply always_bind; [apply always_choice; done |]. intros dflt _.
  eapply always_bind; [apply always_choice; done |]. intros location _.
  eapply always_bind; [apply always_random_datetime |]. intros ts Hts.
  apply always_ret. cbv beta in *. unfold fields_row.
  cbn [Timestamp Amount]. lia.
Qed.

Lemma always_synth_normal i a :
  always synth_normal (λ f,
    let t := fields_row i a f in
    Timestamp t `mod` 60 = 0 ∧ 0 ≤ Timestamp t ∧ 0 ≤ Amount t ∧
    normal_amount t ∧ Location t ∈ LOCATIONS ∧
    Timestamp t ≤ base_date + timedelta 365 23 59).
Proof.
  unfold synth_normal.
  eapply always_bind; [apply always_choice; done |]. intros merchant _.
  eapply always_bind; [apply always_choice; done |]. intros dflt _.
  eapply always_bind; [apply always_generate_normal_amount |].
  intros amount Ha.
  eapply always_bind; [apply always_random53 |]. intros u _.
  eapply always_bind.
  { instantiate (1 := λ l, l ∈ LOCATIONS). case_decide.
    - eapply always_mono; [apply always_choice; done |].
      intros l Hl. unfold LOCATIONS. apply elem_of_app. by left.
    - apply always_choice. done. }
  intros location Hl.
  eapply always_bind; [apply always_random_datetime |]. intros ts Hts.
  apply always_ret. cbv beta in *. unfold normal_amount, fields_row.
  cbn [Timestamp Amount Category Location].
  repeat split; try done; lia.
Qed.

Lemma always_synth_repeated i a0 m l a bt k :
  0 ≤ bt → bt `mod` 3600 = 0 → 0 ≤ a →
  always (synth_repeated m l a bt k) (λ f,
    let t := fields_row i a0 f in
    Timestamp t `mod` 60 = 0 ∧ 0 ≤ Timestamp t ∧ 0 ≤ Amount t ∧
    Merchant t = m ∧ Location t = l ∧ Amount t = a ∧
    ∃ step, 5 ≤ step ≤ 20 ∧
            Timestamp t = bt + timedelta 0 0 (Z.of_nat k * step)).
Proof.
  intros Hbt Hmod Ha. unfold synth_repeated.
  eapply always_bind; [apply always_randint; lia |]. intros step Hstep.
  simpl in Hstep. apply always_ret. simpl.
  assert (bt `mod` 60 = 0) as Hmod60.
  { apply Z.mod_divide in Hmod as [q ->]; [| lia].
    replace (q * 3600) with (q * 60 * 60) by lia. apply Z.mod_mul. lia. }
  unfold timedelta. repeat split; try done.
  - replace (bt + (86400 * 0 + 3600 * 0 + 60 * (Z.of_nat k * step)))
      with (bt + (Z.of_nat k * step) * 60) by lia.
    rewrite Z.mod_add by lia. done.
  - nia.
  - exists step. split; [lia | done].
Qed.

Lemma plan_rel_insert plan0 plan i pair_index pair_id first_idx ts t :
  plan_rel plan0 plan →
  plan !! i = Some (rapid_location_change pair_index pair_id first_idx ts) →
  plan_rel plan0
    (<[i := rapid_location_change pair_index pair_id first_idx (Some t)]> plan).
Proof.
  intros Hrel Hi j. destruct (decide (i = j)) as [<-|Hne].
  - rewrite lookup_insert_eq, <- Hrel, Hi. reflexivity.
  - rewrite lookup_insert_ne by done. apply Hrel.
Qed.

Lemma timestamps_aligned_insert plan i pair_index pair_id first_idx t :
  timestamps_aligned plan → t `mod` 60 = 0 → 0 ≤ t →
  timestamps_aligned
    (<[i := rapid_location_change pair_index pair_id first_idx (Some t)]> plan).
Proof.
  intros Hal Ht Ht0 j e t' Hj He. destruct (decide (i = j)) as [<-|Hne].
  - rewrite lookup_insert_eq in Hj. inversion Hj; subst. simpl in He.
    inversion He; subst. done.
  - rewrite lookup_insert_ne in Hj by done. apply (Hal j e t' Hj He).
Qed.

Lemma always_synth_rapid plan0 plan i a pair_index pair_id first_idx ts :
  plan_rel plan0 plan → timestamps_aligned plan →
  plan !! i = Some (rapid_location_change pair_index pair_id first_idx ts) →
  always (synth_rapid plan i pair_index pair_id first_idx ts) (λ r,
    let t := fields_row i a r.1 in
    plan_rel plan0 r.2 ∧ timestamps_aligned r.2 ∧
    Timestamp t `mod` 60 = 0 ∧ 0 ≤ Timestamp t ∧ 0 ≤ Amount t ∧
    normal_amount t ∧
    Location t ∈ (if decide (pair_index = 0%nat) then LOCATIONS_USA
                  else LOCATIONS_INTERNATIONAL)).
Proof.
  intros Hrel Hal Hi. unfold synth_rapid.
  eapply always_bind; [apply always_choice; done |]. intros merchant _.
  eapply always_bind; [apply always_choice; done |]. intros dflt _.
  eapply always_bind; [apply always_generate_normal_amount |].
  intros amount Ha. cbv beta in Ha.
  destruct (decide (pair_index = 0%nat)) as [Hz|Hnz].
  - eapply always_bind; [apply always_choice; done |]. intros location Hl.
    eapply always_bind; [apply always_random_datetime |]. intros t Ht.
    cbv beta in Ht, Hl. apply always_ret. unfold normal_amount, fields_row.
    cbn [fst snd Timestamp Amount Category Location].
    split; [by eapply plan_rel_insert |].
    split; [apply timestamps_aligned_insert; [done | tauto | lia] |].
    repeat split; try done; lia.
  - eapply always_bind; [apply always_choice; done |]. intros location Hl.
    cbv beta in Hl.
    destruct (_ ≫= entry_timestamp) as [first_timestamp|] eqn:Efirst.
    + assert (first_timestamp `mod` 60 = 0 ∧ 0 ≤ first_timestamp) as Hft.
      { apply bind_Some in Efirst as (e & He & Hts).
        destruct first_idx as [k|]; [| done]. case_decide; [done |].
        apply (Hal k e _ He Hts). }
      eapply always_bind; [apply always_randint; lia |]. intros m Hm.
      cbv beta in Hm.
      assert ((first_timestamp + timedelta 0 0 m) `mod` 60 = 0) as Hmod.
      { unfold timedelta.
        replace (first_timestamp + (86400 * 0 + 3600 * 0 + 60 * m))
          with (first_timestamp + m * 60) by lia.
        rewrite Z.mod_add by lia. tauto. }
      assert (0 ≤ first_timestamp + timedelta 0 0 m) as Hpos
        by (unfold timedelta; lia).
      apply always_ret. unfold normal_amount, fields_row.
      cbn [fst snd Timestamp Amount Category Location].
      split; [done |]. split; [done |]. repeat split; try done; lia.
    + eapply always_bind; [apply always_random_datetime |]. intros t Ht.
      cbv beta in Ht. apply always_ret. unfold normal_amount, fields_row.
      cbn [fst snd Timestamp Amount Category Location].
      split; [done |]. split; [done |]. repeat split; try done; lia.
Qed.

Lemma erase_timestamp_inv e0 e :
  erase_timestamp e = erase_timestamp e0 →
  match e with
  | rapid_location_change pair_index pair_id first_idx _ =>
      ∃ ts0, e0 = rapid_location_change pair_index pair_id first_idx ts0
  | _ => e0 = e
  end.
Proof. destruct e, e0; simpl; intros H; inversion H; eauto. Qed.

Lemma always_synth_row plan0 plan i :
  (∀ j e, plan0 !! j = Some e → entry_fresh e) →
  plan_rel plan0 plan → timestamps_aligned plan →
  always (synth_row i plan) (λ r,
    plan_rel plan0 r.2 ∧ timestamps_aligned r.2 ∧ row_ok plan0 i r.1).
Proof.
  intros Hfresh Hrel Hal. unfold synth_row.
  eapply always_bind; [apply always_randint; lia |]. intros a _.
  pose proof (Hrel i) as Hreli.
  destruct (plan !! i) as [e|] eqn:Ei.
  - destruct (plan0 !! i) as [e0|] eqn:E0; [| done].
    simpl in Hreli. injection Hreli as Hreli.
    apply erase_timestamp_inv in Hreli.
    destruct e as [|pair_index pair_id first_idx ts|m l amt bt k].
    + subst e0. eapply always_bind.
      { eapply always_bind; [apply (always_synth_high_amount i a) |].
        intros f Hf. apply always_ret.
        instantiate (1 := λ r, (plan_rel plan0 r.2 ∧ timestamps_aligned r.2)
                               ∧ row_ok plan0 i (fields_row i a r.1)).
        cbv beta zeta in *. unfold row_ok. rewrite E0. cbn [fst snd].
        split; [done |]. first [tauto | repeat split; try tauto; lia]. }
      intros [[[[[amount merchant] category] timestamp] location] plan'] Hr.
      apply always_ret. cbv beta in Hr. cbn [fst snd fields_row] in *. tauto.
    + destruct Hreli as [ts0 ->]. eapply always_bind.
      { eapply always_mono; [by apply (always_synth_rapid plan0 plan i a) |].
        intros r Hr.
        instantiate (1 := λ r, (plan_rel plan0 r.2 ∧ timestamps_aligned r.2)
                               ∧ row_ok plan0 i (fields_row i a r.1)).
        cbv beta zeta in *. unfold row_ok. rewrite E0. cbn [fst snd].
        tauto. }
      intros [[[[[amount merchant] category] timestamp] location] plan'] Hr.
      apply always_ret. cbv beta in Hr. cbn [fst snd fields_row] in *. tauto.
    + subst e0. pose proof (Hfresh _ _ E0) as Hf0. simpl in Hf0.
      eapply always_bind.
      { eapply always_bind;
          [apply (always_synth_repeated i a); [tauto | tauto | lia] |].
        intros f Hf. apply always_ret.
        instantiate (1 := λ r, (plan_rel plan0 r.2 ∧ timestamps_aligned r.2)
                               ∧ row_ok plan0 i (fields_row i a r.1)).
        cbv beta zeta in *. unfold row_ok. rewrite E0. cbn [fst snd].
        split; [done |]. first [tauto | repeat split; try tauto; lia]. }
      intros [[[[[amount merchant] category] timestamp] location] plan'] Hr.
      apply always_ret. cbv beta in Hr. cbn [fst snd fields_row] in *. tauto.
  - destruct (plan0 !! i) as [e0|] eqn:E0; [done |].
    eapply always_bind.
    { eapply always_bind; [apply (always_synth_normal i a) |].
      intros f Hf. apply always_ret.
      instantiate (1 := λ r, (plan_rel plan0 r.2 ∧ timestamps_aligned r.2)
                             ∧ row_ok plan0 i (fields_row i a r.1)).
      cbv beta zeta in *. unfold row_ok. rewrite E0. cbn [fst snd].
        split; [done |]. first [tauto | repeat split; try tauto; lia]. }
    intros [[[[[amount merchant] category] timestamp] location] plan'] Hr.
    apply always_ret. cbv beta in Hr. cbn [fst snd fields_row] in *. tauto.
Qed.

(** ** The synthesis loop and whole runs *)

Lemma entry_fresh_aligned (plan : gmap nat plan_entry) :
  (∀ j e, plan !! j = Some e → entry_fresh e) → timestamps_aligned plan.
Proof.
  intros Hfresh i e t Hi Ht. specialize (Hfresh i e Hi).
  destruct e; simpl in *; try done. destruct Hfresh as [-> _]. done.
Qed.

Lemma always_synthesize plan0 num_rows :
  (∀ j e, plan0 !! j = Some e → entry_fresh e) →
  always (synthesize num_rows plan0) (λ r,
    length r.1 = Z.to_nat num_rows ∧
    ∀ i t, r.1 !! i = Some t → row_ok plan0 i t).
Proof.
  intros Hfresh. unfold synthesize, range.
  eapply always_mono.
  - apply (always_for_each_seq synth_step (λ j st,
      length st.1 = j ∧ plan_rel plan0 st.2 ∧ timestamps_aligned st.2 ∧
      ∀ i t, st.1 !! i = Some t → row_ok plan0 i t)).
    + simpl. split; [done |]. split; [done |].
      split; [by apply entry_fresh_aligned |]. intros i t H. done.
    + intros j [txs plan] _ (Hlen & Hrel & Hal & Hrows). simpl in *.
      unfold synth_step. simpl.
      eapply always_bind; [by apply (always_synth_row plan0 plan j) |].
      intros [t plan'] (Hrel' & Hal' & Hrow). simpl in *.
      apply always_ret. simpl. split; [rewrite length_app; simpl; lia |].
      split; [done |]. split; [done |]. intros i t' Hi.
      apply lookup_app_Some in Hi as [Hi | [Hge Hi]]; [by apply Hrows |].
      rewrite Hlen in *. destruct (i - j)%nat as [|n] eqn:En; [| done].
      simpl in Hi. inversion Hi; subst t'.
      replace i with j by lia. done.
  - intros [txs plan] (Hlen & _ & _ & Hrows). simpl in *. done.
Qed.

(** Every run of [generate_transactions] whose product [num_rows *
    anomaly_percentage] is a finite float and whose row count is at most
    [sys.maxsize]: the two phases return, the plan
    satisfies the planner's postcondition and every row is as planned. *)
Lemma generate_transactions_run num_rows anomaly_percentage g num_anomalies :
  Float.int_of_product num_rows anomaly_percentage = Some num_anomalies →
  num_rows ≤ maxsize →
  ∃ av st g1 transactions plan' g2,
    plan_anomalies num_rows num_anomalies g = Some ((av, st), g1) ∧
    synthesize num_rows (anomaly_plan st) g1 = Some ((transactions, plan'), g2) ∧
    generate_transactions num_rows anomaly_percentage g
      = Some (transactions, g2) ∧
    plan_post num_rows num_anomalies (av, st) ∧
    length transactions = Z.to_nat num_rows ∧
    ∀ i t, transactions !! i = Some t → row_ok (anomaly_plan st) i t.
Proof.
  intros Hk Hmax.
  destruct (always_plan_anomalies num_rows num_anomalies Hmax g)
    as ([av st] & g1 & Eplan & Hpost).
  pose proof Hpost as (_ & Hplanned & _). simpl in Hplanned.
  destruct (always_synthesize (anomaly_plan st) num_rows
              (planned_fresh _ _ Hplanned) g1)
    as ([txs plan'] & g2 & Esyn & Hlen & Hrows). simpl in *.
  exists av, st, g1, txs, plan', g2.
  split; [done |]. split; [done |]. split; [| done].
  unfold generate_transactions. rewrite Hk. simpl.
  apply M_bind_Some. exists num_anomalies, g. split; [done |].
  apply M_bind_Some. exists (av, st), g1. split; [done |].
  apply M_bind_Some. exists (txs, plan'), g2. split; [done |]. done.
Qed.

Lemma range_nonpos n : n ≤ 0 → range n = [].
Proof. intros H. unfold range. replace (Z.to_nat n) with 0%nat by lia. done. Qed.

(** A negative number of requested anomalies makes the three slot counts
    non-positive, so the three loops do not run. *)
Lemma negative_anomalies_plan_nothing num_rows num_anomalies g av st g1 :
  num_anomalies < 0 →
  plan_anomalies num_rows num_anomalies g = Some ((av, st), g1) →
  st = PlanState ∅ 0.
Proof.
  intros Hneg. unfold plan_anomalies.
  rewrite (range_nonpos (high_amount_count num_anomalies))
    by (unfold high_amount_count; Z.div_mod_to_equations; lia).
  rewrite (range_nonpos (rapid_location_pairs num_anomalies))
    by (unfold rapid_location_pairs; Z.div_mod_to_equations; lia).
  rewrite (range_nonpos (repeated_small_groups num_anomalies))
    by (unfold repeated_small_groups, high_amount_count,
          rapid_location_pairs; Z.div_mod_to_equations; lia).
  simpl. intros H. apply M_bind_Some in H as (l & g0 & _ & H).
  apply M_bind_Some in H as (av' & g' & _ & H).
  inversion H. reflexivity.
Qed.

Lemma planned_row_in_range num_rows av st i e :
  av ≡ₚ range num_rows → planned av st →
  anomaly_plan st !! i = Some e → (i < Z.to_nat num_rows)%nat.
Proof.
  intros Hav Hp Hi.
  assert (i ∈ dom (anomaly_plan st)) as Hdom by (apply elem_of_dom; eauto).
  rewrite (planned_dom _ _ Hp), elem_of_list_to_set in Hdom.
  apply list_elem_of_lookup in Hdom as [j Hj].
  apply lookup_take_Some in Hj as [Hj _].
  apply list_elem_of_lookup_2 in Hj. rewrite Hav in Hj.
  unfold range in Hj. apply elem_of_seq in Hj. lia.
Qed.

(** ** The text of an amount *)

Lemma no_point_uint d :
  Csv.contains "." (NilEmpty.string_of_uint d) = false.
Proof. induction d; simpl; try done. Qed.

Lemma no_point_str n : 0 ≤ n → Csv.contains "." (Text.str n) = false.
Proof.
  intros Hn. unfold Text.str. rewrite decide_False by lia. simpl.
  unfold NilZero.string_of_uint. destruct (N.to_uint _); try done;
    apply (no_point_uint (_ _)).
Qed.

Lemma split_point_app a b :
  Csv.contains "." a = false →
  split_point (a ++ String "." b) = Some (a, b).
Proof.
  induction a as [|c a IH]; simpl; intros H.
  - reflexivity.
  - apply orb_false_iff in H as [Hc Ha].
    apply bool_decide_eq_false in Hc.
    rewrite decide_False by congruence. rewrite (IH Ha). reflexivity.
Qed.

Lemma parse_digits_str n : 0 ≤ n → parse_digits (Text.str n) = Some n.
Proof.
  intros Hn. unfold parse_digits, Text.str. rewrite decide_False by lia.
  change ("" +:+ ?x) with x. pose proof (DecimalN.Unsigned.of_to (Z.to_N (Z.abs n))) as Hof.
  destruct (N.to_uint (Z.to_N (Z.abs n))) as [|d|d|d|d|d|d|d|d|d|d] eqn:E.
  1: { simpl in *. f_equal. lia. }
  all: rewrite NilZero.usu by done; unfold fmap, option_fmap, option_map;
    rewrite Hof; f_equal; lia.
Qed.

Lemma fraction_text_spec tenths hundredths :
  0 ≤ tenths < 10 → 0 ≤ hundredths < 10 →
  (String.length (fraction_text tenths hundredths) = 1%nat ∧
   hundredths = 0 ∧
   parse_digits (fraction_text tenths hundredths) = Some tenths)
  ∨ (String.length (fraction_text tenths hundredths) = 2%nat ∧
     parse_digits (fraction_text tenths hundredths)
     = Some (10 * tenths + hundredths)).
Proof.
  intros Ht Hh.
  assert (Forall (λ t, Forall (λ h,
            (String.length (fraction_text t h) = 1%nat ∧ h = 0 ∧
             parse_digits (fraction_text t h) = Some t)
            ∨ (String.length (fraction_text t h) = 2%nat ∧
               parse_digits (fraction_text t h) = Some (10 * t + h)))
            (seqZ 0 10)) (seqZ 0 10)) as HF.
  { vm_compute seqZ.
    repeat (constructor; [repeat (constructor;
      [first [left; vm_compute; done | right; vm_compute; done] |]);
      constructor |]). constructor. }
  rewrite Forall_forall in HF.
  specialize (HF tenths). rewrite Forall_forall in HF.
  apply HF; apply elem_of_seqZ; lia.
Qed.

Lemma repr_amount_split c :
  0 ≤ c →
  Text.repr_amount c
  = Text.str (c / 100)
    ++ String "." (fraction_text ((c `mod` 100) / 10) (c `mod` 10)).
Proof.
  intros Hc. unfold Text.repr_amount, fraction_text.
  rewrite decide_False by lia. rewrite Z.abs_eq by lia. reflexivity.
Qed.

Lemma repr_amount_reads_back c :
  0 ≤ c →
  (fraction_digits (Text.repr_amount c) = Some 1%nat ∨
   fraction_digits (Text.repr_amount c) = Some 2%nat) ∧
  parse_amount (Text.repr_amount c) = Some c.
Proof.
  intros Hc. rewrite (repr_amount_split c Hc).
  assert (0 ≤ c / 100) as Hw by (apply Z.div_pos; lia).
  unfold fraction_digits, parse_amount.
  rewrite (split_point_app _ _ (no_point_str _ Hw)). simpl.
  rewrite (parse_digits_str _ Hw). simpl.
  pose proof (Z.mod_pos_bound c 100) as H100.
  pose proof (Z.mod_pos_bound c 10) as H10.
  destruct (fraction_text_spec ((c `mod` 100) / 10) (c `mod` 10))
    as [(Hlen & Hz & Hp) | (Hlen & Hp)].
  - Z.div_mod_to_equations. lia.
  - lia.
  - rewrite Hlen, Hp. simpl. split; [by left |]. f_equal.
    Z.div_mod_to_equations. lia.
  - rewrite Hlen, Hp. simpl. split; [by right |]. f_equal.
    Z.div_mod_to_equations. lia.
Qed.

(** ** The timestamp written back for a pair *)

Lemma always_elim {A} (m : M A) (P : A → Prop) g a g' :
  always m P → m g = Some (a, g') → P a.
Proof.
  intros H E. destruct (H g) as (a' & g'' & E' & Ha).
  rewrite E in E'. inversion E'. subst. exact Ha.
Qed.

Lemma always_conj {A} (m : M A) (P Q : A → Prop) :
  always m P → always m Q → always m (λ a, P a ∧ Q a).
Proof.
  intros HP HQ g. destruct (HP g) as (a & g' & E & Ha).
  exists a, g'. split; [exact E |]. split; [exact Ha |].
  apply (always_elim m Q g a g' HQ E).
Qed.

Lemma always_true {A} (m : M A) (P : A → Prop) :
  always m P → always m (λ _, True).
Proof. intros H. eapply always_mono; [exact H | done]. Qed.

Lemma always_synth_rapid_pair plan i a pair_index pair_id first_idx ts :
  plan !! i = Some (rapid_location_change pair_index pair_id first_idx ts) →
  always (synth_rapid plan i pair_index pair_id first_idx ts) (λ r,
    pair_step plan i (fields_row i a r.1, r.2)).
Proof.
  intros Hi. unfold synth_rapid, pair_step. rewrite Hi.
  eapply always_bind; [apply always_choice; done |]. intros merchant _.
  eapply always_bind; [apply always_choice; done |]. intros dflt _.
  eapply always_bind; [apply always_generate_normal_amount |].
  intros amount _.
  destruct (decide (pair_index = 0%nat)) as [Hz|Hnz].
  - eapply always_bind; [apply always_choice; done |]. intros location _.
    eapply always_bind; [apply always_random_datetime |]. intros t _.
    apply always_ret. cbn [fst snd fields_row Timestamp TransactionID].
    split; [reflexivity |]. split.
    + intros k Hk. by rewrite lookup_insert_ne.
    + rewrite lookup_insert_eq. reflexivity.
  - eapply always_bind; [apply always_choice; done |]. intros location _.
    destruct (_ ≫= entry_timestamp) as [first_timestamp|] eqn:Efirst.
    + eapply always_bind; [apply always_randint; lia |]. intros m Hm.
      cbv beta in Hm. apply always_ret.
      cbn [fst snd fields_row Timestamp TransactionID].
      split; [reflexivity |]. split; [done |]. intros k t0 -> Hk Ht0.
      rewrite decide_False in Efirst by done.
      rewrite Ht0 in Efirst. inversion Efirst; subst. by exists m.
    + eapply always_bind; [apply always_random_datetime |]. intros t _.
      apply always_ret. cbn [fst snd fields_row Timestamp TransactionID].
      split; [reflexivity |]. split; [done |]. intros k t0 -> Hk Ht0.
      rewrite decide_False in Efirst by done.
      rewrite Ht0 in Efirst. discriminate Efirst.
Qed.

Lemma always_synth_row_pair plan i :
  always (synth_row i plan) (pair_step plan i).
Proof.
  unfold synth_row.
  eapply always_bind; [apply always_randint; lia |]. intros a _.
  destruct (plan !! i) as [[|pair_index pair_id first_idx ts|m l amt bt k]|]
    eqn:Ei.
  - eapply always_bind.
    { eapply always_bind;
        [apply (always_true _ _ (always_synth_high_amount i a)) |].
      intros f _. apply always_ret.
      instantiate (1 := λ r, r.2 = plan). reflexivity. }
    intros [[[[[amount merchant] category] timestamp] location] plan'] Hr.
    apply always_ret. simpl in Hr. subst plan'. unfold pair_step.
    rewrite Ei. split; [reflexivity |]. done.
  - eapply always_bind; [by apply (always_synth_rapid_pair plan i a) |].
    intros [[[[[amount merchant] category] timestamp] location] plan'] Hr.
    apply always_ret. exact Hr.
  - eapply always_bind.
    { eapply always_bind; [| intros f _; apply always_ret;
        instantiate (1 := λ r, r.2 = plan); reflexivity].
      unfold synth_repeated.
      eapply always_bind; [apply always_randint; lia |]. intros step _.
      apply always_ret. instantiate (1 := λ _, True). done. }
    intros [[[[[amount merchant] category] timestamp] location] plan'] Hr.
    apply always_ret. simpl in Hr. subst plan'. unfold pair_step.
    rewrite Ei. split; [reflexivity |]. done.
  - eapply always_bind.
    { eapply always_bind;
        [apply (always_true _ _ (always_synth_normal i a)) |].
      intros f _. apply always_ret.
      instantiate (1 := λ r, r.2 = plan). reflexivity. }
    intros [[[[[amount merchant] category] timestamp] location] plan'] Hr.
    apply always_ret. simpl in Hr. subst plan'. unfold pair_step.
    rewrite Ei. split; [reflexivity |]. done.
Qed.

Lemma erase_timestamp_rapid (x y : option plan_entry) a b c d :
  erase_timestamp <$> x = erase_timestamp <$> y →
  x = Some (rapid_location_change a b c d) →
  ∃ d', y = Some (rapid_location_change a b c d').
Proof.
  intros H ->. destruct y as [e|]; [| done].
  destruct e; simpl in H; inversion H; subst. eauto.
Qed.

Lemma pairs_invariant_step plan0 n txs plan t plan' :
  pairs_invariant plan0 n (txs, plan) →
  plan_rel plan0 plan' → timestamps_aligned plan' →
  pair_step plan n (t, plan') →
  pairs_invariant plan0 (S n) ((txs ++ [t])%list, plan').
Proof.
  intros (Hlen & Hrel & Hal & Hids & Hstored & Hwin) Hrel' Hal'
    (Hid & Hframe & Hstep).
  unfold pairs_invariant. cbn [fst snd] in *.
  split; [rewrite length_app; simpl; lia |].
  split; [done |]. split; [done |]. split; [| split].
  - intros r t_r Hr.
    apply lookup_app_Some in Hr as [Hr | [Hge Hr]]; [by apply Hids |].
    rewrite Hlen in *. destruct (r - n)%nat eqn:En; [| done].
    simpl in Hr. inversion Hr; subst t_r. assert (r = n) as -> by lia. done.
  - intros r t_r pair_id first_idx ts Hr Hpr.
    apply lookup_app_Some in Hr as [Hr | [Hge Hr]].
    + pose proof (lookup_lt_Some _ _ _ Hr) as Hlt.
      rewrite Hframe in Hpr by lia. by eapply Hstored.
    + rewrite Hlen in *. destruct (r - n)%nat eqn:En; [| done].
      simpl in Hr. inversion Hr; subst t_r. assert (r = n) as -> by lia.
      destruct (erase_timestamp_rapid _ (plan0 !! n) _ _ _ _ (Hrel' n) Hpr)
        as [d0 H0].
      destruct (erase_timestamp_rapid _ (plan !! n) _ _ _ _
                  (eq_sym (Hrel n)) H0) as [d1 H1].
      rewrite H1 in Hstep. simpl in Hstep. rewrite Hpr in Hstep.
      simpl in Hstep. done.
  - intros i j pair_id ts ts' t1 t2 Hi Hj Ht1 Ht2 Hnz Hlt.
    apply lookup_app_Some in Ht2 as [Ht2 | [Hge Ht2]].
    + pose proof (lookup_lt_Some _ _ _ Ht2) as Hjn.
      rewrite lookup_app_l in Ht1 by lia. by eapply Hwin.
    + rewrite Hlen in *. destruct (j - n)%nat eqn:En; [| done].
      simpl in Ht2. inversion Ht2; subst t2. assert (j = n) as -> by lia.
      rewrite lookup_app_l in Ht1 by lia.
      destruct (erase_timestamp_rapid _ (plan !! n) _ _ _ _
                  (eq_sym (Hrel n)) Hj) as [d1 H1].
      destruct (erase_timestamp_rapid _ (plan !! i) _ _ _ _
                  (eq_sym (Hrel i)) Hi) as [d2 H2].
      rewrite H1 in Hstep. simpl in Hstep.
      apply (Hstep i (Timestamp t1)); [done | done |].
      rewrite H2. simpl. by eapply Hstored.
Qed.

Lemma always_synthesize_pairs plan0 num_rows :
  (∀ j e, plan0 !! j = Some e → entry_fresh e) →
  always (synthesize num_rows plan0)
         (pairs_invariant plan0 (Z.to_nat num_rows)).
Proof.
  intros Hfresh. unfold synthesize, range.
  apply (always_for_each_seq synth_step (pairs_invariant plan0)
           (Z.to_nat num_rows) 0%nat).
  - split; [done |]. split; [done |].
    split; [by apply entry_fresh_aligned |]. split; [| split].
    + intros r t H. done.
    + intros r t pair_id first_idx ts H. done.
    + intros i j pair_id ts ts' t1 t2 _ _ H. done.
  - intros j [txs plan] _ Hinv. unfold synth_step. simpl.
    pose proof Hinv as (_ & Hrel & Hal & _).
    eapply always_bind.
    { apply always_conj; [by apply (always_synth_row plan0 plan j) |].
      apply always_synth_row_pair. }
    intros [t plan'] [(Hrel' & Hal' & _) Hstep]. simpl in *.
    apply always_ret. by apply (pairs_invariant_step plan0 j txs plan).
Qed.

(** ** Every draw goes through the source, in order *)

Lemma advance_0 g : advance g 0 = g.
Proof. destruct g. unfold advance. simpl. f_equal. lia. Qed.

Lemma advance_advance g j k : advance (advance g j) k = advance g (j + k).
Proof. unfold advance. simpl. f_equal. lia. Qed.

Lemma agree_weaken j k g g' : (j ≤ k)%nat → agree k g g' → agree j g g'.
Proof. intros Hjk H n Hn. apply H. lia. Qed.

Lemma agree_advance j k g g' :
  agree (j + k) g g' → agree k (advance g j) (advance g' j).
Proof.
  intros H n Hn. simpl. rewrite <- !Nat.add_assoc. apply H. lia.
Qed.

Lemma sequential_ret {A} (a : A) : sequential (mret a).
Proof.
  intros g b g1 H. unfold mret, M_ret in H. inversion H; subst.
  exists 0%nat. split; [by rewrite advance_0 |].
  intros g' _. by rewrite advance_0.
Qed.

Lemma sequential_raise {A} : sequential (@raise A).
Proof. intros g a g1 H. discriminate H. Qed.

Lemma sequential_lift {A} (o : option A) : sequential (lift o).
Proof. destruct o; [apply sequential_ret | apply sequential_raise]. Qed.

Lemma sequential_bind {A B} (m : M A) (f : A → M B) :
  sequential m → (∀ a, sequential (f a)) → sequential (m ≫= f).
Proof.
  intros Hm Hf g b g2 H. apply M_bind_Some in H as (a & g1 & E1 & E2).
  destruct (Hm _ _ _ E1) as (j & -> & Hj).
  destruct (Hf a _ _ _ E2) as (k & -> & Hk).
  exists (j + k)%nat. split; [apply advance_advance |].
  intros g' Hg'. apply M_bind_Some. exists a, (advance g' j).
  split; [apply Hj; eapply agree_weaken; [| exact Hg']; lia |].
  rewrite <- advance_advance. apply Hk. by apply agree_advance.
Qed.

Lemma sequential_next_raw : sequential next_raw.
Proof.
  intros g a g1 H. unfold next_raw in H. inversion H; subst.
  exists 1%nat.
  split; [unfold advance; by replace (pos g + 1)%nat with (S (pos g)) by lia |].
  intros g' Hg'. unfold next_raw. specialize (Hg' 0%nat).
  rewrite !Nat.add_0_r in Hg'. rewrite Hg' by lia.
  unfold advance. replace (pos g' + 1)%nat with (S (pos g')) by lia.
  reflexivity.
Qed.

Create HintDb sequential.

#[local] Hint Resolve sequential_ret sequential_raise sequential_lift
  sequential_next_raw : sequential.

(** One step through the structure of a computation. *)
Ltac sequential_step :=
  cbv beta;
  lazymatch goal with
  | |- sequential (mret _) => apply sequential_ret
  | |- sequential (mbind _ _) => apply sequential_bind; [| intros ?]
  | |- sequential (if ?c then _ else _) => destruct c
  | |- sequential (match ?x with _ => _ end) => destruct x
  | |- sequential _ => solve [eauto with sequential]
  end.

Ltac sequential_tac := repeat sequential_step.

Lemma sequential_randbelow n : sequential (randbelow n).
Proof. unfold randbelow. sequential_tac. Qed.

#[local] Hint Resolve sequential_randbelow : sequential.

Lemma sequential_randint a b : sequential (randint a b).
Proof. unfold randint. sequential_tac. Qed.

Lemma sequential_index {A} (l : list A) i : sequential (index l i).
Proof. unfold index. apply sequential_lift. Qed.

#[local] Hint Resolve sequential_randint sequential_index : sequential.

Lemma sequential_choice {A} (l : list A) : sequential (choice l).
Proof. unfold choice. sequential_tac. Qed.

Lemma sequential_random53 : sequential random53.
Proof. unfold random53. sequential_tac. Qed.

Lemma sequential_round_uniform lo hi : sequential (round_uniform lo hi).
Proof. unfold round_uniform. sequential_tac. Qed.

Lemma sequential_swap x i j : sequential (swap x i j).
Proof. unfold swap. sequential_tac. Qed.

#[local] Hint Resolve sequential_choice sequential_random53
  sequential_round_uniform sequential_swap : sequential.

Lemma sequential_shuffle_from k : ∀ x, sequential (shuffle_from k x).
Proof.
  induction k as [|k IH]; intros x; simpl; [apply sequential_ret |].
  sequential_tac.
Qed.

Lemma sequential_shuffle x : sequential (shuffle x).
Proof. unfold shuffle. apply sequential_shuffle_from. Qed.

Lemma sequential_list_range n : sequential (list_range n).
Proof. unfold list_range. sequential_tac. Qed.

Lemma sequential_for_each {A S} (body : A → S → M S) :
  (∀ x s, sequential (body x s)) → ∀ xs s, sequential (for_each xs body s).
Proof.
  intros Hbody xs. induction xs as [|x xs IH]; intros s; simpl.
  - apply sequential_ret.
  - apply sequential_bind; [apply Hbody | intros s'; apply IH].
Qed.

#[local] Hint Resolve sequential_shuffle sequential_list_range : sequential.

Lemma sequential_generate_normal_amount category :
  sequential (generate_normal_amount category).
Proof. unfold generate_normal_amount. sequential_tac. Qed.

Lemma sequential_generate_anomalous_amount :
  sequential generate_anomalous_amount.
Proof. unfold generate_anomalous_amount. sequential_tac. Qed.

Lemma sequential_random_datetime : sequential random_datetime.
Proof. unfold random_datetime. sequential_tac. Qed.

#[local] Hint Resolve sequential_generate_normal_amount
  sequential_generate_anomalous_amount sequential_random_datetime
  : sequential.

Lemma sequential_assign_high av x st : sequential (assign_high av x st).
Proof. unfold assign_high. sequential_tac. Qed.

Lemma sequential_assign_pair av x st : sequential (assign_pair av x st).
Proof. unfold assign_pair. sequential_tac. Qed.

Lemma sequential_assign_group av x st : sequential (assign_group av x st).
Proof. unfold assign_group. sequential_tac. Qed.

Lemma sequential_plan_anomalies num_rows num_anomalies :
  sequential (plan_anomalies num_rows num_anomalies).
Proof.
  unfold plan_anomalies.
  apply sequential_bind; [apply sequential_list_range | intros indices].
  apply sequential_bind; [apply sequential_shuffle | intros av].
  apply sequential_bind;
    [apply sequential_for_each, sequential_assign_high | intros st1].
  apply sequential_bind;
    [apply sequential_for_each, sequential_assign_pair | intros st2].
  apply sequential_bind;
    [apply sequential_for_each, sequential_assign_group | intros st3].
  apply sequential_ret.
Qed.

Lemma sequential_synth_high_amount : sequential synth_high_amount.
Proof. unfold synth_high_amount. sequential_tac. Qed.

Lemma sequential_synth_normal : sequential synth_normal.
Proof. unfold synth_normal. sequential_tac. Qed.

Lemma sequential_synth_repeated m l a bt k :
  sequential (synth_repeated m l a bt k).
Proof. unfold synth_repeated. sequential_tac. Qed.

Lemma sequential_synth_rapid plan i pair_index pair_id first_idx ts :
  sequential (synth_rapid plan i pair_index pair_id first_idx ts).
Proof. unfold synth_rapid. sequential_tac. Qed.

#[local] Hint Resolve sequential_synth_high_amount sequential_synth_normal
  sequential_synth_repeated sequential_synth_rapid : sequential.

Lemma sequential_synth_row i plan : sequential (synth_row i plan).
Proof. unfold synth_row. sequential_tac. Qed.

Lemma sequential_synth_step i st : sequential (synth_step i st).
Proof.
  unfold synth_step.
  apply sequential_bind; [apply sequential_synth_row | intros [t plan']].
  apply sequential_ret.
Qed.

Lemma sequential_synthesize num_rows plan :
  sequential (synthesize num_rows plan).
Proof. unfold synthesize. apply sequential_for_each, sequential_synth_step. Qed.

Lemma sequential_generate_transactions num_rows anomaly_percentage :
  sequential (generate_transactions num_rows anomaly_percentage).
Proof.
  unfold generate_transactions.
  apply sequential_bind; [apply sequential_lift | intros num_anomalies].
  apply sequential_bind; [apply sequential_plan_anomalies | intros [av st]].
  apply sequential_bind; [apply sequential_synthesize | intros [txs plan']].
  apply sequential_ret.
Qed.

(** Whether generation raises is decided by the row count and the
    fraction alone. *)
Lemma generate_transactions_overflow num_rows anomaly_percentage g :
  maxsize < num_rows →
  generate_transactions num_rows anomaly_percentage g = None.
Proof.
  intros Hn. apply eq_None_not_Some. intros [[txs g2] H].
  unfold generate_transactions in H.
  apply M_bind_Some in H as (k & g0 & _ & H).
  apply M_bind_Some in H as (r & g1 & Hplan & _).
  rewrite plan_anomalies_overflow in Hplan by done. discriminate Hplan.
Qed.

Lemma generate_transactions_raises num_rows anomaly_percentage g g' :
  generate_transactions num_rows anomaly_percentage g = None →
  generate_transactions num_rows anomaly_percentage g' = None.
Proof.
  intros H.
  destruct (Float.int_of_product num_rows anomaly_percentage) as [k|] eqn:Hk.
  - destruct (decide (num_rows ≤ maxsize)) as [Hmax|Hmax].
    + destruct (generate_transactions_run _ _ g _ Hk Hmax)
        as (av & st & g1 & txs & plan' & g2 & _ & _ & Egen & _).
      rewrite Egen in H. discriminate H.
    + apply generate_transactions_overflow. lia.
  - unfold generate_transactions. rewrite Hk. reflexivity.
Qed.

(** ** The file reads back *)

Lemma string_app_cons c a b : String c a ++ b = String c (a ++ b).
Proof. reflexivity. Qed.

Lemma string_app_nil_r a : a ++ "" = a.
Proof.
  induction a as [|c a IH]; [reflexivity |].
  by rewrite string_app_cons, IH.
Qed.

Lemma string_app_assoc a b c : (a ++ b) ++ c = a ++ (b ++ c).
Proof.
  induction a as [|x a IH]; [reflexivity |].
  by rewrite !string_app_cons, IH.
Qed.

Lemma snoc_app cur c s : CsvRead.snoc cur c ++ s = cur ++ String c s.
Proof. unfold CsvRead.snoc. by rewrite string_app_assoc. Qed.

Lemma contains_false c x s :
  Csv.contains c (String x s) = false → c ≠ x ∧ Csv.contains c s = false.
Proof.
  simpl. intros H. apply orb_false_iff in H as [H1 H2].
  by apply bool_decide_eq_false in H1.
Qed.

Section Reader.

Variables (row : list string) (rows : list (list string)).

Lemma read_unquoted s : ∀ cur rest,
  Csv.contains "," s = false → Csv.contains Csv.quotechar s = false →
  Csv.contains Csv.cr s = false → Csv.contains Csv.lf s = false →
  CsvRead.read (CsvRead.Unquoted cur) row rows (s ++ rest)
  = CsvRead.read (CsvRead.Unquoted (cur ++ s)) row rows rest.
Proof.
  induction s as [|c s IH]; intros cur rest Hc Hq Hr Hl.
  - by rewrite string_app_nil_r.
  - apply contains_false in Hc as [Hc Hc']. apply contains_false in Hq as [Hq Hq'].
    apply contains_false in Hr as [Hr Hr']. apply contains_false in Hl as [Hl Hl'].
    rewrite string_app_cons. cbn [CsvRead.read].
    rewrite !decide_False by congruence.
    rewrite IH by done. by rewrite snoc_app.
Qed.

Lemma read_escape s : ∀ cur rest,
  CsvRead.read (CsvRead.Quoted cur) row rows (Csv.escape s ++ rest)
  = CsvRead.read (CsvRead.Quoted (cur ++ s)) row rows rest.
Proof.
  induction s as [|c s IH]; intros cur rest.
  - by rewrite string_app_nil_r.
  - cbn [Csv.escape]. destruct (decide (c = Csv.quotechar)) as [->|Hc].
    + rewrite !string_app_cons. cbn [CsvRead.read].
      rewrite !decide_True by done. rewrite IH. by rewrite snoc_app.
    + rewrite string_app_cons. cbn [CsvRead.read].
      rewrite decide_False by done. rewrite IH. by rewrite snoc_app.
Qed.

End Reader.

(** A field followed by anything that ends a field: the reader has the
    field's text when it reaches the end. *)
Lemma read_field (K : string → option (list (list string))) row rows st s tail :
  st = CsvRead.RecordStart ∨ st = CsvRead.FieldStart →
  CsvRead.read st row rows tail = K "" →
  (∀ cur, CsvRead.read (CsvRead.Unquoted cur) row rows tail = K cur) →
  (∀ cur, CsvRead.read (CsvRead.QuoteSeen cur) row rows tail = K cur) →
  CsvRead.read st row rows (Csv.field s ++ tail) = K s.
Proof.
  intros Hst Hstart Hunq Hseen. unfold Csv.field.
  destruct (Csv.contains "," s) eqn:Ec; [| destruct (Csv.contains Csv.quotechar s) eqn:Eq;
    [| destruct (Csv.contains Csv.cr s) eqn:Er;
      [| destruct (Csv.contains Csv.lf s) eqn:El]]]; cbn [orb].
  5: { destruct s as [|c s]; [exact Hstart |].
       apply contains_false in Ec as [Hc Hc']. apply contains_false in Eq as [Hq Hq'].
       apply contains_false in Er as [Hr Hr']. apply contains_false in El as [Hl Hl'].
       rewrite string_app_cons.
       destruct Hst as [-> | ->]; cbn [CsvRead.read];
         rewrite !decide_False by congruence;
         rewrite read_unquoted by done; apply Hunq. }
  all: rewrite string_app_assoc, string_app_cons.
  all: destruct Hst as [-> | ->]; cbn [CsvRead.read];
    rewrite decide_True by done; rewrite read_escape;
    rewrite string_app_cons; cbn [CsvRead.read];
    rewrite decide_True by done; apply Hseen.
Qed.

Lemma read_field_comma row rows st s r :
  st = CsvRead.RecordStart ∨ st = CsvRead.FieldStart →
  CsvRead.read st row rows (Csv.field s ++ String "," r)
  = CsvRead.read CsvRead.FieldStart (row ++ [s])%list rows r.
Proof.
  intros Hst.
  apply (read_field (λ cur, CsvRead.read CsvRead.FieldStart
                              (row ++ [cur])%list rows r)); [done | | |].
  - destruct Hst as [-> | ->]; reflexivity.
  - intros cur. reflexivity.
  - intros cur. reflexivity.
Qed.

Lemma read_field_crlf row rows st s r :
  st = CsvRead.RecordStart ∨ st = CsvRead.FieldStart →
  CsvRead.read st row rows (Csv.field s ++ Csv.lineterminator ++ r)
  = CsvRead.read CsvRead.RecordStart [] (rows ++ [row ++ [s]])%list r.
Proof.
  intros Hst.
  apply (read_field (λ cur, CsvRead.read CsvRead.RecordStart []
                              (rows ++ [row ++ [cur]])%list r)); [done | | |].
  - destruct Hst as [-> | ->]; reflexivity.
  - intros cur. reflexivity.
  - intros cur. reflexivity.
Qed.

Lemma read_line cells : ∀ row rows st r,
  cells ≠ [] →
  st = CsvRead.RecordStart ∨ st = CsvRead.FieldStart →
  CsvRead.read st row rows (Csv.line cells ++ r)
  = CsvRead.read CsvRead.RecordStart [] (rows ++ [row ++ cells])%list r.
Proof.
  induction cells as [|c cells IH]; intros row rows st r Hne Hst; [done |].
  destruct cells as [|c2 cells].
  - unfold Csv.line. cbn [fmap list_fmap String.concat].
    rewrite string_app_assoc. by apply read_field_crlf.
  - assert (Csv.line (c :: c2 :: cells)
            = Csv.field c ++ String "," (Csv.line (c2 :: cells))) as ->.
    { unfold Csv.line. cbn [fmap list_fmap String.concat].
      by rewrite !string_app_assoc. }
    rewrite string_app_assoc, string_app_cons, read_field_comma by done.
    rewrite IH by (done || by right).
    by rewrite <- app_assoc.
Qed.

Lemma concat_empty_cons x xs :
  String.concat "" (x :: xs) = x ++ String.concat "" xs.
Proof.
  destruct xs as [|y xs]; cbn [String.concat].
  - by rewrite string_app_nil_r.
  - reflexivity.
Qed.

Lemma read_lines (records : list (list string)) : ∀ rows,
  Forall (λ cells, cells ≠ []) records →
  CsvRead.read CsvRead.RecordStart [] rows
    (String.concat "" (Csv.line <$> records))
  = Some (rows ++ records)%list.
Proof.
  induction records as [|cells records IH]; intros rows HF.
  - cbn. by rewrite app_nil_r.
  - apply Forall_cons in HF as [Hne HF]. rewrite fmap_cons, concat_empty_cons.
    rewrite read_line by (done || by left).
    rewrite IH by done. by rewrite <- app_assoc.
Qed.

Lemma write_csv_reads_back (transactions : list transaction) :
  CsvRead.read_csv (Csv.write_csv transactions)
  = Some (Csv.fieldnames :: (record_cells <$> transactions)).
Proof.
  unfold CsvRead.read_csv, Csv.write_csv, Csv.lines.
  change (Csv.row <$> transactions)
    with ((Csv.line ∘ record_cells) <$> transactions).
  rewrite (list_fmap_compose record_cells Csv.line).
  change (Csv.line Csv.fieldnames
            :: (Csv.line <$> (record_cells <$> transactions)))
    with (Csv.line <$> (Csv.fieldnames :: (record_cells <$> transactions))).
  rewrite read_lines; [done |].
  constructor; [done |]. apply Forall_fmap, Forall_forall. done.
Qed.

(** * The claims *)

Ltac run_concrete :=
  eexists _, _, _; split;
  [ eexists _, _, _; split; [vm_compute; reflexivity |];
    split; vm_compute; reflexivity
  | ].

(** ** C1: location pairs *)

(** C1, the failing run.  The shuffle puts the first row of the pair at
    index 3 and the second at index 2.  Rows are synthesized in index
    order, so the second row is built before the first has stored its
    timestamp and takes the fallback: an independent random timestamp,
    here a week before the first row's. *)
Theorem location_pair_window_violated :
  ∃ av st transactions,
    run_of 6 (1 # 1) tape_pair_reversed 6 av st transactions ∧
    anomaly_plan st !! 3%nat = Some (rapid_location_change 0 0 None None) ∧
    anomaly_plan st !! 2%nat
      = Some (rapid_location_change 1 0 (Some 3%nat) None) ∧
    (∃ t1 t2,
       transactions !! 3%nat = Some t1 ∧ transactions !! 2%nat = Some t2 ∧
       Text.strftime (Timestamp t1) = "2023-01-11 09:30:00" ∧
       Text.strftime (Timestamp t2) = "2023-01-04 14:07:00" ∧
       Timestamp t2 < Timestamp t1) ∧
    ¬ pair_window (anomaly_plan st) transactions.
Proof.
  run_concrete.
  split; [vm_compute; reflexivity |]. split; [vm_compute; reflexivity |].
  split.
  - eexists _, _. split; [vm_compute; reflexivity |].
    split; [vm_compute; reflexivity |].
    split; [vm_compute; reflexivity |].
    split; [vm_compute; reflexivity |]. vm_compute. reflexivity.
  - intros Hw.
    edestruct (Hw 3%nat 2%nat 0%nat None None) as [[Hlo _] _];
      [vm_compute; reflexivity .. |].
    vm_compute in Hlo. apply Hlo. reflexivity.
Qed.

(** The same failure with the rows in order: the first row of the pair is
    row 0, its index is falsy in [if first_idx], and the second row,
    although synthesized later, takes the fallback too. *)
Lemma location_pair_row_zero_violated :
  ∃ av st transactions,
    run_of 6 (1 # 1) tape_pair_row_zero 6 av st transactions ∧
    anomaly_plan st !! 0%nat = Some (rapid_location_change 0 0 None None) ∧
    anomaly_plan st !! 3%nat
      = Some (rapid_location_change 1 0 (Some 0%nat) None) ∧
    (∃ t1 t2,
       transactions !! 0%nat = Some t1 ∧ transactions !! 3%nat = Some t2 ∧
       Text.strftime (Timestamp t1) = "2023-01-11 09:30:00" ∧
       Text.strftime (Timestamp t2) = "2023-07-20 14:07:00") ∧
    ¬ pair_window (anomaly_plan st) transactions.
Proof.
  run_concrete.
  split; [vm_compute; reflexivity |]. split; [vm_compute; reflexivity |].
  split.
  - eexists _, _. split; [vm_compute; reflexivity |].
    split; [vm_compute; reflexivity |].
    split; vm_compute; reflexivity.
  - intros Hw.
    edestruct (Hw 0%nat 3%nat 0%nat None None) as [[_ Hhi] _];
      [vm_compute; reflexivity .. |].
    vm_compute in Hhi. apply Hhi. reflexivity.
Qed.

(** The locations of a pair are right in every run. *)
Lemma location_pair_locations num_rows anomaly_percentage g num_anomalies :
  Float.int_of_product num_rows anomaly_percentage = Some num_anomalies →
  num_rows ≤ maxsize →
  ∃ av st transactions,
    run_of num_rows anomaly_percentage g num_anomalies av st transactions ∧
    ∀ i pair_index pair_id first_idx ts t,
      anomaly_plan st !! i
        = Some (rapid_location_change pair_index pair_id first_idx ts) →
      transactions !! i = Some t →
      Location t ∈ (if decide (pair_index = 0%nat) then LOCATIONS_USA
                    else LOCATIONS_INTERNATIONAL).
Proof.
  intros Hk Hmax.
  destruct (generate_transactions_run _ _ g _ Hk Hmax)
    as (av & st & g1 & txs & plan' & g2 & Eplan & Esyn & Egen & _ & _ & Hrows).
  exists av, st, txs. split; [by exists g1, plan', g2 |].
  intros i pair_index pair_id first_idx ts t Hi Ht.
  specialize (Hrows i t Ht). unfold row_ok in Hrows. rewrite Hi in Hrows.
  tauto.
Qed.

(** A pair whose first row has a non-zero index below the index of its
    second row does satisfy the pair property, in every run. *)
Lemma location_pair_window_in_order num_rows anomaly_percentage g
    num_anomalies :
  Float.int_of_product num_rows anomaly_percentage = Some num_anomalies →
  num_rows ≤ maxsize →
  ∃ av st transactions,
    run_of num_rows anomaly_percentage g num_anomalies av st transactions ∧
    pair_window_in_order (anomaly_plan st) transactions.
Proof.
  intros Hk Hmax.
  destruct (generate_transactions_run _ _ g _ Hk Hmax)
    as (av & st & g1 & txs & plan' & g2 & Eplan & Esyn & Egen & Hpost
        & _ & Hrows).
  exists av, st, txs. split; [by exists g1, plan', g2 |].
  destruct Hpost as (_ & Hp & _). simpl in Hp.
  pose proof (always_elim _ _ _ _ _
                (always_synthesize_pairs (anomaly_plan st) num_rows
                   (planned_fresh _ _ Hp)) Esyn)
    as (_ & _ & _ & _ & _ & Hwin).
  intros i j pair_id ts ts' t1 t2 Hi Hj Ht1 Ht2 Hnz Hlt.
  destruct (Hwin i j pair_id ts ts' t1 t2 Hi Hj Ht1 Ht2 Hnz Hlt)
    as (m & Hm & ->).
  pose proof (Hrows _ _ Ht1) as R1. pose proof (Hrows _ _ Ht2) as R2.
  unfold row_ok in R1, R2. rewrite Hi in R1. rewrite Hj in R2.
  simpl in R1, R2. unfold timedelta in *.
  split; [lia |]. tauto.
Qed.

(** ** C2: repeated small groups *)

(** C2 as stated fails: in this run the third member of the group is at
    00:10 and the second at 00:20. *)
Lemma group_not_ordered :
  ∃ av st transactions,
    run_of 9 (1 # 1) tape_group 9 av st transactions ∧
    (∃ t1 t2,
       anomaly_plan st !! 6%nat
         = Some (repeated_small "Amazon" "New York, USA" 99 0 1) ∧
       anomaly_plan st !! 7%nat
         = Some (repeated_small "Amazon" "New York, USA" 99 0 2) ∧
       transactions !! 6%nat = Some t1 ∧ transactions !! 7%nat = Some t2 ∧
       Text.strftime (Timestamp t1) = "2023-01-01 00:20:00" ∧
       Text.strftime (Timestamp t2) = "2023-01-01 00:10:00") ∧
    ¬ group_ordered (anomaly_plan st) transactions.
Proof.
  run_concrete. split.
  - eexists _, _. split; [vm_compute; reflexivity |].
    split; [vm_compute; reflexivity |]. split; [vm_compute; reflexivity |].
    split; [vm_compute; reflexivity |]. split; vm_compute; reflexivity.
  - intros Hg.
    edestruct (Hg "Amazon" "New York, USA" 99 0 5%nat 6%nat 7%nat)
      as (_ & _ & Hle & _).
    + split; [repeat constructor; set_solver |].
      repeat split; vm_compute; reflexivity.
    + vm_compute in Hle. apply Hle. reflexivity.
Qed.

(** C2, as the code has it.  In every run each member of a planned group
    belongs to three distinct rows at the ordinal positions 0, 1, 2 whose
    records share merchant, location and amount exactly.  Member 0 is at
    the base time, member 1 between 5 and 20 minutes after it, member 2
    between 10 and 40 minutes after it, each with a step of its own: the
    three timestamps lie within 40 minutes, member 0 is never after the
    others, and members 1 and 2 come in either order. *)
Theorem repeated_group_as_built (num_rows : Z) (anomaly_percentage : Q)
    (g : rng) (num_anomalies : Z) :
  Float.int_of_product num_rows anomaly_percentage = Some num_anomalies →
  num_rows ≤ maxsize →
  ∃ av st transactions,
    run_of num_rows anomaly_percentage g num_anomalies av st transactions ∧
    groups_as_built (anomaly_plan st) transactions.
Proof.
  intros Hk Hmax.
  destruct (generate_transactions_run _ _ g _ Hk Hmax)
    as (av & st & g1 & txs & plan' & g2 & Eplan & Esyn & Egen & Hpost
        & Hlen & Hrows).
  exists av, st, txs. split; [by exists g1, plan', g2 |].
  destruct Hpost as (Hav & Hp & _). simpl in Hav, Hp.
  intros i m l a bt k Hi.
  destruct (planned_groups _ _ Hp _ _ _ _ _ _ Hi)
    as (i0 & i1 & i2 & ND & H0 & H1 & H2 & Hk').
  assert (∀ j e, anomaly_plan st !! j = Some e → ∃ t, txs !! j = Some t)
    as Hrow.
  { intros j e Hj. apply lookup_lt_is_Some_2. rewrite Hlen.
    eapply planned_row_in_range; eauto. }
  destruct (Hrow _ _ H0) as [t0 Ht0]. destruct (Hrow _ _ H1) as [t1 Ht1].
  destruct (Hrow _ _ H2) as [t2 Ht2].
  pose proof (Hrows _ _ Ht0) as R0. pose proof (Hrows _ _ Ht1) as R1.
  pose proof (Hrows _ _ Ht2) as R2. unfold row_ok in R0, R1, R2.
  rewrite H0 in R0. rewrite H1 in R1. rewrite H2 in R2.
  destruct R0 as (_ & _ & _ & M0 & L0 & A0 & s0 & Hs0 & T0).
  destruct R1 as (_ & _ & _ & M1 & L1 & A1 & s1 & Hs1 & T1).
  destruct R2 as (_ & _ & _ & M2 & L2 & A2 & s2 & Hs2 & T2).
  exists i0, i1, i2, t0, t1, t2.
  split; [by repeat split |]. split; [done |].
  split; [by repeat constructor |].
  unfold group_timing. unfold timedelta in *.
  split; [rewrite T0; simpl; lia |].
  split; [exists s1; split; [lia | rewrite T1; f_equal] |].
  split; [exists s2; split; [lia | rewrite T2; f_equal] |].
  repeat constructor; lia.
Qed.

Lemma repeated_group_as_built_witness :
  Float.int_of_product 9 (1 # 1) = Some 9 ∧
  9 ≤ maxsize ∧
  ∃ av st transactions,
    run_of 9 (1 # 1) tape_group 9 av st transactions ∧
    groups_as_built (anomaly_plan st) transactions.
Proof.
  split; [vm_compute; reflexivity |].
  split; [unfold maxsize; lia |].
  apply (repeated_group_as_built 9 (1 # 1) tape_group 9);
    [vm_compute; reflexivity | unfold maxsize; lia].
Defined.

(** ** C3: disjoint slots, no read past the end *)

(** C3.  For every row count up to [sys.maxsize], for which the index
    list can be built, and every number of requested anomalies (hence
    every anomaly fraction) the planner returns without an IndexError,
    that is, no read of the shuffled index list is past its end.  The
    planned rows are exactly the first [idx] entries of the shuffled list,
    which is a permutation of [0, N), so they are pairwise distinct, and
    the plan has as many entries as indices were consumed: no assignment
    overwrote another.  A slot for which too few indices remain is skipped
    and leaves plan and cursor unchanged.  For a row count past
    [sys.maxsize] the planner raises before it assigns anything. *)
Theorem planner_indices_disjoint (num_rows num_anomalies : Z) (g : rng) :
  (num_rows ≤ maxsize →
   ∃ av st g',
     plan_anomalies num_rows num_anomalies g = Some ((av, st), g') ∧
     av ≡ₚ range num_rows ∧
     (idx st ≤ length av)%nat ∧
     NoDup (take (idx st) av) ∧
     dom (anomaly_plan st) = list_to_set (take (idx st) av) ∧
     size (anomaly_plan st) = idx st ∧
     (∀ x st0 g0, (length av < idx st0 + 1)%nat →
                  assign_high av x st0 g0 = Some (st0, g0)) ∧
     (∀ x st0 g0, (length av < idx st0 + 2)%nat →
                  assign_pair av x st0 g0 = Some (st0, g0)) ∧
     (∀ x st0 g0, (length av < idx st0 + 3)%nat →
                  assign_group av x st0 g0 = Some (st0, g0))) ∧
  (maxsize < num_rows → plan_anomalies num_rows num_anomalies g = None).
Proof.
  split; [| apply plan_anomalies_overflow].
  intros Hmax.
  destruct (always_plan_anomalies num_rows num_anomalies Hmax g)
    as ([av st] & g' & E & Hav & Hp & _). simpl in Hav, Hp.
  assert (NoDup av) as ND by (rewrite Hav; apply NoDup_range).
  exists av, st, g'. split; [exact E |]. split; [exact Hav |].
  split; [apply (planned_idx _ _ Hp) |].
  split.
  { rewrite <- (take_drop (idx st) av) in ND. apply NoDup_app in ND. tauto. }
  split; [apply (planned_dom _ _ Hp) |].
  split; [by apply (planned_size av ND) |].
  split; [| split].
  - intros x st0 g0 H. unfold assign_high.
    rewrite decide_False by lia. reflexivity.
  - intros x st0 g0 H. unfold assign_pair.
    rewrite decide_False by lia. reflexivity.
  - intros x st0 g0 H. unfold assign_group, group_size.
    rewrite decide_False by lia. reflexivity.
Qed.

Lemma planner_indices_disjoint_witness :
  6 ≤ maxsize ∧
  ∃ av st g',
    plan_anomalies 6 6 tape_pair_reversed = Some ((av, st), g') ∧
    av ≡ₚ range 6 ∧
    (idx st ≤ length av)%nat ∧
    NoDup (take (idx st) av) ∧
    dom (anomaly_plan st) = list_to_set (take (idx st) av) ∧
    size (anomaly_plan st) = idx st ∧
    (∀ x st0 g0, (length av < idx st0 + 1)%nat →
                 assign_high av x st0 g0 = Some (st0, g0)) ∧
    (∀ x st0 g0, (length av < idx st0 + 2)%nat →
                 assign_pair av x st0 g0 = Some (st0, g0)) ∧
    (∀ x st0 g0, (length av < idx st0 + 3)%nat →
                 assign_group av x st0 g0 = Some (st0, g0)).
Proof.
  split; [unfold maxsize; lia |].
  apply (proj1 (planner_indices_disjoint 6 6 tape_pair_reversed)).
  unfold maxsize. lia.
Defined.

(** ** C4: 500 rows, 5 percent anomalies *)

(** C4.  With 500 rows and the fraction 0.05, [int(500 * 0.05)] is 25, the
    slot counts are 8 high amounts, 4 pairs and 3 groups, and in every run
    the plan holds 25 rows: 8 of type high_amount, 8 of type
    rapid_location_change and 9 of type repeated_small.  The synthesizer
    returns 500 records, the record at index i carrying the identifier of
    row i, and the file [write_csv] writes for them reads back as the
    header followed by 500 data rows, the i-th holding the cells of the
    i-th record. *)
Theorem scenario_500_rows (g : rng) :
  Float.int_of_product 500 (Float.literal 5 100) = Some 25 ∧
  high_amount_count 25 = 8 ∧
  rapid_location_pairs 25 = 4 ∧
  repeated_small_groups 25 = 3 ∧
  ∃ av st g1 transactions plan' g2 rows,
    plan_anomalies 500 25 g = Some ((av, st), g1) ∧
    synthesize 500 (anomaly_plan st) g1 = Some ((transactions, plan'), g2) ∧
    generate_transactions 500 (Float.literal 5 100) g
      = Some (transactions, g2) ∧
    size (anomaly_plan st) = 25%nat ∧
    count_type "high_amount" (anomaly_plan st) = 8%nat ∧
    count_type "rapid_location_change" (anomaly_plan st) = 8%nat ∧
    count_type "repeated_small" (anomaly_plan st) = 9%nat ∧
    length transactions = 500%nat ∧
    (∀ i, (i < 500)%nat →
          ∃ t, transactions !! i = Some t ∧ TransactionID t = row_id i) ∧
    CsvRead.read_csv (Csv.write_csv transactions)
      = Some (Csv.fieldnames :: rows) ∧
    length rows = 500%nat ∧
    (∀ i t, transactions !! i = Some t → rows !! i = Some (record_cells t)).
Proof.
  assert (Float.int_of_product 500 (Float.literal 5 100) = Some 25) as Hk
    by (vm_compute; reflexivity).
  split; [exact Hk |]. split; [reflexivity |]. split; [reflexivity |].
  split; [reflexivity |].
  assert (500 ≤ maxsize) as Hmax by (unfold maxsize; lia).
  destruct (generate_transactions_run 500 (Float.literal 5 100) g 25 Hk Hmax)
    as (av & st & g1 & txs & plan' & g2 & Eplan & Esyn & Egen & Hpost
        & Hlen & _).
  exists av, st, g1, txs, plan', g2, (record_cells <$> txs).
  destruct Hpost as (Hav & Hp & Hexact). simpl in Hav, Hp, Hexact.
  assert (NoDup av) as ND by (rewrite Hav; apply NoDup_range).
  change (Z.to_nat (high_amount_count 25)) with 8%nat in Hexact.
  change (Z.to_nat (rapid_location_pairs 25)) with 4%nat in Hexact.
  change (Z.to_nat (repeated_small_groups 25)) with 3%nat in Hexact.
  destruct Hexact as (Hidx & Hh & Hr & Hs); [lia |].
  split; [exact Eplan |]. split; [exact Esyn |]. split; [exact Egen |].
  split; [rewrite (planned_size av ND st Hp); exact Hidx |].
  split; [exact Hh |]. split; [exact Hr |]. split; [exact Hs |].
  split; [rewrite Hlen; reflexivity |]. split.
  { pose proof (always_elim _ _ _ _ _
                  (always_synthesize_pairs (anomaly_plan st) 500
                     (planned_fresh _ _ Hp)) Esyn) as (_ & _ & _ & Hids & _).
    intros i Hi. destruct (lookup_lt_is_Some_2 txs i) as [t Ht];
      [rewrite Hlen; lia |].
    exists t. split; [exact Ht | by apply Hids]. }
  split; [apply write_csv_reads_back |].
  split; [rewrite length_fmap, Hlen; reflexivity |].
  intros i t Ht. rewrite list_lookup_fmap, Ht. reflexivity.
Qed.

(** ** C5: determinism *)

(** C5.  Two independent runs, each with its own generator behind
    [random.seed] and its own prior state of the random source, seed the
    source with [s] and generate.  When the two generators deliver for
    the seed [s] the same draws, as two copies of one generator do, the
    runs return the same records and write the same file, or both raise.
    Only the draws that the first run consumes matter: the generators may
    differ after them. *)
Theorem seeded_runs_identical (prng prng' : Z → nat → Z) (s num_rows : Z)
    (anomaly_percentage : Q) (g0 g0' : rng) :
  (∀ n, (n < draws_used (generate_transactions num_rows anomaly_percentage
                           (seed prng s g0)))%nat →
        prng s n = prng' s n) →
  run prng s num_rows anomaly_percentage g0
  = run prng' s num_rows anomaly_percentage g0' ∧
  (fst <$> run prng s num_rows anomaly_percentage g0)
  = (fst <$> run prng' s num_rows anomaly_percentage g0') ∧
  (snd <$> run prng s num_rows anomaly_percentage g0)
  = (snd <$> run prng' s num_rows anomaly_percentage g0').
Proof.
  intros Hdraws.
  assert (run prng s num_rows anomaly_percentage g0
          = run prng' s num_rows anomaly_percentage g0') as Hrun.
  { unfold run.
    destruct (generate_transactions num_rows anomaly_percentage
                (seed prng s g0)) as [[txs g1]|] eqn:E.
    - destruct (sequential_generate_transactions _ _ _ _ _ E)
        as (k & -> & Hk).
      rewrite (Hk (seed prng' s g0')); [reflexivity |].
      intros n Hn. apply Hdraws. simpl. lia.
    - by rewrite (generate_transactions_raises _ _ _ (seed prng' s g0') E). }
  by rewrite Hrun.
Qed.

Lemma seeded_runs_identical_witness :
  (∀ n, (n < draws_used (generate_transactions 1 (0 # 1)
                           (seed prng_sample 42 (rng_of_list []))))%nat →
        prng_sample 42 n = prng_sample_prefix 42 n) ∧
  run prng_sample 42 1 (0 # 1) (rng_of_list [])
  = run prng_sample_prefix 42 1 (0 # 1) (rng_of_list [5]) ∧
  (fst <$> run prng_sample 42 1 (0 # 1) (rng_of_list []))
  = (fst <$> run prng_sample_prefix 42 1 (0 # 1) (rng_of_list [5])) ∧
  (snd <$> run prng_sample 42 1 (0 # 1) (rng_of_list []))
  = (snd <$> run prng_sample_prefix 42 1 (0 # 1) (rng_of_list [5])).
Proof.
  assert (draws_used (generate_transactions 1 (0 # 1)
                        (seed prng_sample 42 (rng_of_list []))) = 9%nat)
    as Hused by (vm_compute; reflexivity).
  assert (∀ n, (n < draws_used (generate_transactions 1 (0 # 1)
                           (seed prng_sample 42 (rng_of_list []))))%nat →
               prng_sample 42 n = prng_sample_prefix 42 n) as Hdraws.
  { rewrite Hused. intros n Hn. unfold prng_sample_prefix, prng_sample.
    by rewrite decide_True. }
  split; [exact Hdraws |].
  apply (seeded_runs_identical prng_sample prng_sample_prefix 42 1 (0 # 1)
           (rng_of_list []) (rng_of_list [5])).
  exact Hdraws.
Defined.

(** The generators of the sample do differ after the draws consumed. *)
Lemma sample_generators_differ :
  prng_sample 42 9 ≠ prng_sample_prefix 42 9.
Proof. vm_compute. discriminate. Qed.

(** Without the seeding call the output depends on the initial state. *)
Lemma unseeded_runs_differ :
  run_unseeded 1 0 (rng_of_list [0]) ≠ run_unseeded 1 0 (rng_of_list [1]).
Proof. vm_compute. discriminate. Qed.

(** ** C6: the format of amounts *)

(** C6 as stated fails: a row whose amount is 20 dollars is written as
    [20.0], with one fractional digit. *)
Lemma amount_cell_one_digit :
  ∃ av st transactions,
    run_of 1 (0 # 1) (rng_of_list []) 0 av st transactions ∧
    (∃ t, transactions = [t] ∧ Amount t = 2000 ∧
          Csv.amount_cell t = "20.0") ∧
    ¬ two_fraction_digits transactions.
Proof.
  run_concrete. split.
  - eexists. split; [reflexivity |]. split; vm_compute; reflexivity.
  - intros H. specialize (H _ (list_elem_of_here _ _)).
    vm_compute in H. discriminate H.
Qed.

(** C6, as the code has it.  In every run the Amount cell of every record
    is the integer part, a point and one or two fractional digits, the
    [repr] of the rounded float, and the cell reads back as exactly the
    amount of the record: a decimal number with at most 2 fractional
    digits. *)
Theorem amount_cell_format (num_rows : Z) (anomaly_percentage : Q)
    (g : rng) (num_anomalies : Z) :
  Float.int_of_product num_rows anomaly_percentage = Some num_anomalies →
  num_rows ≤ maxsize →
  ∃ av st transactions,
    run_of num_rows anomaly_percentage g num_anomalies av st transactions ∧
    amount_cells_read_back transactions.
Proof.
  intros Hk Hmax.
  destruct (generate_transactions_run _ _ g _ Hk Hmax)
    as (av & st & g1 & txs & plan' & g2 & Eplan & Esyn & Egen & _ & _ & Hrows).
  exists av, st, txs. split; [by exists g1, plan', g2 |].
  intros t Ht. apply list_elem_of_lookup in Ht as [i Hi].
  destruct (Hrows i t Hi) as (_ & _ & Hamount & _).
  apply repr_amount_reads_back, Hamount.
Qed.

Lemma amount_cell_format_witness :
  Float.int_of_product 6 (1 # 1) = Some 6 ∧
  6 ≤ maxsize ∧
  ∃ av st transactions,
    run_of 6 (1 # 1) tape_pair_row_zero 6 av st transactions ∧
    amount_cells_read_back transactions.
Proof.
  split; [vm_compute; reflexivity |].
  split; [unfold maxsize; lia |].
  apply (amount_cell_format 6 (1 # 1) tape_pair_row_zero 6);
    [vm_compute; reflexivity | unfold maxsize; lia].
Defined.

(** ** C7: the two amount populations *)

(** C7.  In every run, the amount of a normal row and of either row of a
    location pair lies in the range configured for the row's category, the
    default range when the category has none, and is below 5000 dollars;
    the amount of a high-amount row lies between 5000 and 50000 dollars,
    both included.  The two populations are disjoint. *)
Theorem amount_populations_disjoint (num_rows : Z) (anomaly_percentage : Q)
    (g : rng) (num_anomalies : Z) :
  Float.int_of_product num_rows anomaly_percentage = Some num_anomalies →
  num_rows ≤ maxsize →
  ∃ av st transactions,
    run_of num_rows anomaly_percentage g num_anomalies av st transactions ∧
    amounts_by_kind (anomaly_plan st) transactions.
Proof.
  intros Hk Hmax.
  destruct (generate_transactions_run _ _ g _ Hk Hmax)
    as (av & st & g1 & txs & plan' & g2 & Eplan & Esyn & Egen & _ & _ & Hrows).
  exists av, st, txs. split; [by exists g1, plan', g2 |].
  intros i t Hi. specialize (Hrows i t Hi). unfold row_ok in Hrows.
  destruct (anomaly_plan st !! i) as [[| |]|]; try done.
  - lia.
  - unfold normal_amount in Hrows. lia.
  - unfold normal_amount in Hrows. lia.
Qed.

Lemma amount_populations_disjoint_witness :
  Float.int_of_product 6 (1 # 1) = Some 6 ∧
  6 ≤ maxsize ∧
  ∃ av st transactions,
    run_of 6 (1 # 1) tape_pair_reversed 6 av st transactions ∧
    amounts_by_kind (anomaly_plan st) transactions.
Proof.
  split; [vm_compute; reflexivity |].
  split; [unfold maxsize; lia |].
  apply (amount_populations_disjoint 6 (1 # 1) tape_pair_reversed 6);
    [vm_compute; reflexivity | unfold maxsize; lia].
Defined.

(** ** C8: invalid fractions and the empty data set *)




(** A fraction above 1 on three rows: 6 anomalies are requested, the two
    high-amount slots are filled, the pair no longer fits and is
    skipped. *)
Lemma fraction_above_one_skips_slots :
  ∃ av st transactions,
    run_of 3 (2 # 1) (rng_of_list []) 6 av st transactions ∧
    idx st = 2%nat ∧ size (anomaly_plan st) = 2%nat ∧
    length transactions = 3%nat.
Proof. run_concrete. repeat split; vm_compute; reflexivity. Qed.

(** ** C9: the coverage window *)

(** C9, the failing run.  One normal row whose day offset is drawn as 365:
    [randint(0, 365)] includes both ends, so the timestamp is
    2024-01-01 00:00:00, a full year after [base_date], outside the year
    2023. *)
Theorem normal_timestamp_in_2024 :
  ∃ av st transactions,
    run_of 1 (0 # 1) (rng_of_list [0; 0; 0; 0; 0; 0; 365]) 0
           av st transactions ∧
    anomaly_plan st = ∅ ∧
    ∃ t, transactions = [t] ∧
         Timestamp t = base_date + timedelta 365 0 0 ∧
         Text.strftime (Timestamp t) = "2024-01-01 00:00:00" ∧
         ¬ (Timestamp t < base_date + timedelta 365 0 0).
Proof.
  run_concrete. split; [vm_compute; reflexivity |].
  eexists. split; [reflexivity |].
  split; [vm_compute; reflexivity |]. split; [vm_compute; reflexivity |].
  vm_compute. intros H. discriminate H.
Qed.

(** ** The window that normal rows do stay in *)

(** In every run the timestamp of a normal row lies between [base_date]
    and 2024-01-01 23:59:00, the day offset 365 included. *)
Lemma normal_timestamp_bounds num_rows anomaly_percentage g num_anomalies :
  Float.int_of_product num_rows anomaly_percentage = Some num_anomalies →
  num_rows ≤ maxsize →
  ∃ av st transactions,
    run_of num_rows anomaly_percentage g num_anomalies av st transactions ∧
    ∀ i t, anomaly_plan st !! i = None → transactions !! i = Some t →
           base_date ≤ Timestamp t ≤ base_date + timedelta 365 23 59.
Proof.
  intros Hk Hmax.
  destruct (generate_transactions_run _ _ g _ Hk Hmax)
    as (av & st & g1 & txs & plan' & g2 & Eplan & Esyn & Egen & _ & _ & Hrows).
  exists av, st, txs. split; [by exists g1, plan', g2 |].
  intros i t Hi Ht. specialize (Hrows i t Ht). unfold row_ok in Hrows.
  rewrite Hi in Hrows. unfold base_date in *. lia.
Qed.

(** ** C10: whole minutes *)

(** C10.  In every run the timestamp of every record, whatever the kind of
    its row, is a whole number of minutes: its seconds component is 0. *)
Theorem timestamps_whole_minutes (num_rows : Z) (anomaly_percentage : Q)
    (g : rng) (num_anomalies : Z) :
  Float.int_of_product num_rows anomaly_percentage = Some num_anomalies →
  num_rows ≤ maxsize →
  ∃ av st transactions,
    run_of num_rows anomaly_percentage g num_anomalies av st transactions ∧
    length transactions = Z.to_nat num_rows ∧
    ∀ t, t ∈ transactions →
         Timestamp t `mod` 60 = 0 ∧ (Timestamp t `mod` 86400) `mod` 60 = 0.
Proof.
  intros Hk Hmax.
  destruct (generate_transactions_run _ _ g _ Hk Hmax)
    as (av & st & g1 & txs & plan' & g2 & Eplan & Esyn & Egen & _ & Hlen & Hrows).
  exists av, st, txs. split; [by exists g1, plan', g2 |]. split; [done |].
  intros t Ht. apply list_elem_of_lookup in Ht as [i Hi].
  destruct (Hrows i t Hi) as (Hmod & _). split; [done |].
  rewrite Z.mod_mod_divide; [done |]. exists 1440. lia.
Qed.

Lemma timestamps_whole_minutes_witness :
  Float.int_of_product 9 (1 # 1) = Some 9 ∧
  9 ≤ maxsize ∧
  ∃ av st transactions,
    run_of 9 (1 # 1) tape_group 9 av st transactions ∧
    length transactions = Z.to_nat 9 ∧
    ∀ t, t ∈ transactions →
         Timestamp t `mod` 60 = 0 ∧ (Timestamp t `mod` 86400) `mod` 60 = 0.
Proof.
  split; [vm_compute; reflexivity |].
  split; [unfold maxsize; lia |].
  apply (timestamps_whole_minutes 9 (1 # 1) tape_group 9);
    [vm_compute; reflexivity | unfold maxsize; lia].
Defined.

(** * Further properties of the code *)

(** ** The high-value report of the console summary *)

Lemma filter_length_indices {A} (P : A → Prop) `{∀ x, Decision (P x)}
    (Q : nat → Prop) `{∀ i, Decision (Q i)} (l : list A) :
  (∀ i x, l !! i = Some x → P x → Q i) →
  (length (filter P l) ≤ length (filter Q (seq 0 (length l))))%nat.
Proof.
  induction l as [|x l IH] using rev_ind; intros HPQ; [done |].
  rewrite filter_app, !length_app. simpl.
  rewrite seq_app, filter_app, length_app. simpl.
  assert (length (filter P l) ≤ length (filter Q (seq 0 (length l))))%nat
    as IH'.
  { apply IH. intros i y Hi. apply HPQ. by apply lookup_app_l_Some. }
  rewrite !filter_cons, !filter_nil.
  destruct (decide (P x)) as [HP|HP]; simpl; [| lia].
  rewrite decide_True; [simpl; lia |].
  apply (HPQ _ x); [| done]. rewrite lookup_app_r by lia.
  by rewrite Nat.sub_diag.
Qed.

Lemma indices_length_count ty (plan : gmap nat plan_entry) n :
  (length (filter (λ i, entry_type <$> plan !! i = Some ty) (seq 0 n))
   ≤ count_type ty plan)%nat.
Proof.
  unfold count_type. rewrite <- size_dom.
  set (l := filter _ (seq 0 n)).
  assert (NoDup l) as ND by (apply NoDup_filter, NoDup_seq).
  rewrite <- (size_list_to_set (C := gset nat) l ND).
  apply subseteq_size. intros i Hi.
  apply elem_of_list_to_set, list_elem_of_filter in Hi as [Hi _].
  destruct (plan !! i) as [e|] eqn:E; [| done]. simpl in Hi.
  apply elem_of_dom. exists e. apply map_lookup_filter_Some. split; [done |].
  simpl. congruence.
Qed.

Lemma generate_transactions_run_high_value num_rows anomaly_percentage g
    num_anomalies :
  Float.int_of_product num_rows anomaly_percentage = Some num_anomalies →
  num_rows ≤ maxsize →
  ∃ av st g1 transactions plan' g2,
    plan_anomalies num_rows num_anomalies g = Some ((av, st), g1) ∧
    synthesize num_rows (anomaly_plan st) g1
      = Some ((transactions, plan'), g2) ∧
    generate_transactions num_rows anomaly_percentage g
      = Some (transactions, g2) ∧
    plan_post num_rows num_anomalies (av, st) ∧
    length transactions = Z.to_nat num_rows ∧
    high_value_rows (anomaly_plan st) transactions.
Proof.
  intros Hk Hmax.
  destruct (generate_transactions_run _ _ g _ Hk Hmax)
    as (av & st & g1 & txs & plan' & g2 & Eplan & Esyn & Egen & Hpost
        & Hlen & Hrows).
  exists av, st, g1, txs, plan', g2.
  split; [done |]. split; [done |]. split; [done |]. split; [done |].
  split; [done |].
  destruct Hpost as (_ & Hp & _). simpl in Hp.
  assert (∀ i t, txs !! i = Some t → 100 * 5000 < Amount t →
                 anomaly_plan st !! i = Some high_amount) as Hhigh.
  { intros i t Hi Ha. specialize (Hrows i t Hi). unfold row_ok in Hrows.
    destruct (anomaly_plan st !! i) as [[| |m l a bt k]|] eqn:E; try done.
    - unfold normal_amount in Hrows. lia.
    - pose proof (planned_fresh _ _ Hp _ _ E) as Hf. simpl in Hf. lia.
    - unfold normal_amount in Hrows. lia. }
  split; [| split].
  - intros t Ht. apply list_elem_of_filter in Ht as [Ha Ht].
    apply list_elem_of_lookup in Ht as [i Hi]. exists i. split; [done |].
    by apply (Hhigh i t).
  - intros i t Hi Hplan Hne. apply list_elem_of_filter. split.
    + specialize (Hrows i t Hi). unfold row_ok in Hrows.
      rewrite Hplan in Hrows. lia.
    + by eapply list_elem_of_lookup_2.
  - etrans; [| apply (indices_length_count _ _ (length txs))].
    apply filter_length_indices. intros i t Hi Ha.
    by rewrite (Hhigh i t Hi Ha).
Qed.

(** X1.  In every run the records the console summary lists as
    high-value, those with an amount above 5000, are records of rows
    planned as high_amount: no normal, pair or group row is ever reported.
    Conversely every high_amount row is reported unless its amount is
    exactly 5000.00, which the strict comparison leaves out.  The count
    printed is at most the number of planned high_amount rows. *)
Theorem high_value_report (num_rows : Z) (anomaly_percentage : Q) (g : rng)
    (num_anomalies : Z) :
  Float.int_of_product num_rows anomaly_percentage = Some num_anomalies →
  num_rows ≤ maxsize →
  ∃ av st transactions,
    run_of num_rows anomaly_percentage g num_anomalies av st transactions ∧
    high_value_rows (anomaly_plan st) transactions.
Proof.
  intros Hk Hmax.
  destruct (generate_transactions_run_high_value _ _ g _ Hk Hmax)
    as (av & st & g1 & txs & plan' & g2 & Eplan & Esyn & Egen & _ & _ & Hhv).
  exists av, st, txs. split; [by exists g1, plan', g2 | exact Hhv].
Qed.

Lemma high_value_report_witness :
  Float.int_of_product 6 (1 # 1) = Some 6 ∧
  6 ≤ maxsize ∧
  ∃ av st transactions,
    run_of 6 (1 # 1) tape_pair_reversed 6 av st transactions ∧
    high_value_rows (anomaly_plan st) transactions.
Proof.
  split; [vm_compute; reflexivity |].
  split; [unfold maxsize; lia |].
  apply (high_value_report 6 (1 # 1) tape_pair_reversed 6);
    [vm_compute; reflexivity | unfold maxsize; lia].
Defined.

(** A high-amount row of exactly 5000.00 is not in the report. *)
Lemma high_value_misses_5000 :
  ∃ av st transactions,
    run_of 6 (1 # 1) tape_pair_reversed 6 av st transactions ∧
    count_type "high_amount" (anomaly_plan st) = 2%nat ∧
    Console.high_value transactions = [].
Proof. run_concrete. split; vm_compute; reflexivity. Qed.

(** ** Group amounts *)

(** X2.  In every run the amount of each member of a repeated-small group
    is the group's base amount, between 0.99 and 5.00. *)
Theorem group_amounts_small (num_rows : Z) (anomaly_percentage : Q) (g : rng)
    (num_anomalies : Z) :
  Float.int_of_product num_rows anomaly_percentage = Some num_anomalies →
  num_rows ≤ maxsize →
  ∃ av st transactions,
    run_of num_rows anomaly_percentage g num_anomalies av st transactions ∧
    group_amounts (anomaly_plan st) transactions.
Proof.
  intros Hk Hmax.
  destruct (generate_transactions_run _ _ g _ Hk Hmax)
    as (av & st & g1 & txs & plan' & g2 & Eplan & Esyn & Egen & Hpost
        & _ & Hrows).
  exists av, st, txs. split; [by exists g1, plan', g2 |].
  destruct Hpost as (_ & Hp & _). simpl in Hp.
  intros i t m l a bt k Hi Ht.
  specialize (Hrows i t Ht). unfold row_ok in Hrows. rewrite Hi in Hrows.
  pose proof (planned_fresh _ _ Hp _ _ Hi) as Hf. simpl in Hf.
  destruct Hrows as (_ & _ & _ & _ & _ & -> & _). split; [done | tauto].
Qed.

Lemma group_amounts_small_witness :
  Float.int_of_product 9 (1 # 1) = Some 9 ∧
  9 ≤ maxsize ∧
  ∃ av st transactions,
    run_of 9 (1 # 1) tape_group 9 av st transactions ∧
    group_amounts (anomaly_plan st) transactions.
Proof.
  split; [vm_compute; reflexivity |].
  split; [unfold maxsize; lia |].
  apply (group_amounts_small 9 (1 # 1) tape_group 9);
    [vm_compute; reflexivity | unfold maxsize; lia].
Defined.

(** ** How many rows the planner fills *)

Lemma planned_rows_bounds num_anomalies :
  0 ≤ num_anomalies →
  0 ≤ high_amount_count num_anomalies ∧
  0 ≤ rapid_location_pairs num_anomalies ∧
  0 ≤ repeated_small_groups num_anomalies ∧
  num_anomalies - 2 ≤ planned_rows num_anomalies ≤ num_anomalies.
Proof.
  intros Hk. unfold planned_rows, repeated_small_groups,
    rapid_location_pairs, high_amount_count.
  Z.div_mod_to_equations. lia.
Qed.



(** ** Fewer than three requested anomalies *)

Lemma few_anomalies_plan_nothing num_rows num_anomalies g av st g1 :
  num_anomalies < 3 →
  plan_anomalies num_rows num_anomalies g = Some ((av, st), g1) →
  st = PlanState ∅ 0.
Proof.
  intros Hfew. unfold plan_anomalies.
  rewrite (range_nonpos (high_amount_count num_anomalies))
    by (unfold high_amount_count; Z.div_mod_to_equations; lia).
  rewrite (range_nonpos (rapid_location_pairs num_anomalies))
    by (unfold rapid_location_pairs; Z.div_mod_to_equations; lia).
  rewrite (range_nonpos (repeated_small_groups num_anomalies))
    by (unfold repeated_small_groups, high_amount_count,
          rapid_location_pairs; Z.div_mod_to_equations; lia).
  simpl. intros H. apply M_bind_Some in H as (l & g0 & _ & H).
  apply M_bind_Some in H as (av' & g' & _ & H).
  inversion H. reflexivity.
Qed.



(** ** The amount generator on any category *)

(** X5.  [generate_normal_amount] returns for every category string,
    configured or not: the amount lies in the configured range, an unknown
    category falls back to the range from 10 to 200 dollars instead of
    raising, and in all cases the amount is between 5.00 and 2000.00. *)
Theorem generate_normal_amount_any_category (category : string) (g : rng) :
  ∃ a g',
    generate_normal_amount category g = Some (a, g') ∧
    (∀ lo hi, ranges !! category = Some (lo, hi) →
              100 * lo ≤ a ≤ 100 * hi) ∧
    (ranges !! category = None → 100 * 10 ≤ a ≤ 100 * 200) ∧
    100 * 5 ≤ a ≤ 100 * 2000.
Proof.
  destruct (always_generate_normal_amount category g)
    as (a & g' & E & Hr & _).
  pose proof (category_range_bounds category) as Hb.
  exists a, g'. split; [exact E |]. unfold category_range in *.
  split; [| split].
  - intros lo hi Hc. rewrite Hc in Hr. simpl in Hr. lia.
  - intros Hc. rewrite Hc in Hr. simpl in Hr. lia.
  - lia.
Qed.

(** ** The links the planner builds *)

Lemma plan_links_insert (plan : gmap nat plan_entry) k e :
  plan !! k = None →
  (∀ a b c d, e ≠ rapid_location_change a b c d) →
  (∀ m l a bt j, e = repeated_small m l a bt j →
                 bt ≤ base_date + timedelta 365 23 0) →
  plan_links plan → plan_links (<[k := e]> plan).
Proof.
  intros Hk Hnr Hbt [Hpl Hbb]. split.
  - intros j pair_index pair_id first_idx ts Hj.
    destruct (decide (k = j)) as [->|Hne].
    { rewrite lookup_insert_eq in Hj. inversion Hj. by edestruct Hnr. }
    rewrite lookup_insert_ne in Hj by done.
    destruct (Hpl _ _ _ _ _ Hj) as [(-> & -> & j' & Hj' & E)
                                   | (-> & i & -> & Hi & E)].
    + left. split; [done |]. split; [done |]. exists j'. split; [done |].
      rewrite lookup_insert_ne; [done | congruence].
    + right. split; [done |]. exists i. split; [done |]. split; [done |].
      rewrite lookup_insert_ne; [done | congruence].
  - intros i m l a bt j Hi. destruct (decide (k = i)) as [->|Hne].
    + rewrite lookup_insert_eq in Hi. inversion Hi. by eapply Hbt.
    + rewrite lookup_insert_ne in Hi by done. by eapply Hbb.
Qed.

Lemma plan_links_insert_pair (plan : gmap nat plan_entry) k1 k2 pair_num :
  plan !! k1 = None → plan !! k2 = None → k1 ≠ k2 →
  plan_links plan →
  plan_links
    (<[k2 := rapid_location_change 1 pair_num (Some k1) None]>
       (<[k1 := rapid_location_change 0 pair_num None None]> plan)).
Proof.
  intros H1 H2 Hne [Hpl Hbb]. split.
  - intros j pair_index pair_id first_idx ts Hj.
    destruct (decide (k2 = j)) as [->|Hne2].
    { rewrite lookup_insert_eq in Hj. inversion Hj; subst. right.
      split; [done |]. exists k1. split; [done |]. split; [done |].
      rewrite lookup_insert_ne by done. by rewrite lookup_insert_eq. }
    rewrite lookup_insert_ne in Hj by done.
    destruct (decide (k1 = j)) as [->|Hne1].
    { rewrite lookup_insert_eq in Hj. inversion Hj; subst. left.
      split; [done |]. split; [done |]. exists k2. split; [done |].
      by rewrite lookup_insert_eq. }
    rewrite lookup_insert_ne in Hj by done.
    destruct (Hpl _ _ _ _ _ Hj) as [(-> & -> & j' & Hj' & E)
                                   | (-> & i & -> & Hi & E)].
    + left. split; [done |]. split; [done |]. exists j'. split; [done |].
      rewrite !lookup_insert_ne; [done | congruence ..].
    + right. split; [done |]. exists i. split; [done |]. split; [done |].
      rewrite !lookup_insert_ne; [done | congruence ..].
  - intros i m l a bt j Hi.
    destruct (decide (k2 = i)) as [->|?];
      [rewrite lookup_insert_eq in Hi; done |].
    rewrite lookup_insert_ne in Hi by done.
    destruct (decide (k1 = i)) as [->|?];
      [rewrite lookup_insert_eq in Hi; done |].
    rewrite lookup_insert_ne in Hi by done. by eapply Hbb.
Qed.

Lemma plan_links_empty : plan_links ∅.
Proof.
  split.
  - intros j ? ? ? ? H. rewrite lookup_empty in H. done.
  - intros i ? ? ? ? ? H. rewrite lookup_empty in H. done.
Qed.

Section PlannerLinks.

Variable av : list nat.
Hypothesis av_nodup : NoDup av.

Lemma assign_high_links x st :
  planned av st → plan_links (anomaly_plan st) →
  always (assign_high av x st) (λ st', plan_links (anomaly_plan st')).
Proof.
  intros Hp Hl. unfold assign_high. case_decide as Hroom.
  - eapply always_bind; [apply always_index, Hroom |]. intros k Hk.
    cbv beta in Hk. apply always_ret. simpl.
    apply plan_links_insert; try done.
    by apply (planned_lookup_None av av_nodup st k (idx st)).
  - by apply always_ret.
Qed.

Lemma assign_pair_links pair_num st :
  planned av st → plan_links (anomaly_plan st) →
  always (assign_pair av pair_num st) (λ st', plan_links (anomaly_plan st')).
Proof.
  intros Hp Hl. unfold assign_pair. case_decide as Hroom.
  - eapply always_bind; [apply always_index; lia |]. intros k1 Hk1.
    eapply always_bind; [apply always_index; lia |]. intros k2 Hk2.
    cbv beta in Hk1, Hk2. apply always_ret. simpl.
    apply plan_links_insert_pair; try done.
    + by apply (planned_lookup_None av av_nodup st k1 (idx st)).
    + apply (planned_lookup_None av av_nodup st k2 (idx st + 1)); [done | lia | done].
    + intros ->. pose proof (NoDup_lookup _ _ _ _ av_nodup Hk1 Hk2). lia.
  - by apply always_ret.
Qed.

Lemma assign_group_links x st :
  planned av st → plan_links (anomaly_plan st) →
  always (assign_group av x st) (λ st', plan_links (anomaly_plan st')).
Proof.
  intros Hp Hl. unfold assign_group. case_decide as Hroom.
  - assert (idx st + 3 ≤ length av)%nat as Hroom'
      by (unfold group_size in *; lia).
    destruct (slice_three av st Hroom')
      as (k0 & k1 & k2 & H0 & H1 & H2 & -> & _).
    assert (anomaly_plan st !! k0 = None) as Hn0
      by (eapply (planned_lookup_None av av_nodup); [done | | done]; lia).
    assert (anomaly_plan st !! k1 = None) as Hn1
      by (eapply (planned_lookup_None av av_nodup); [done | | done]; lia).
    assert (anomaly_plan st !! k2 = None) as Hn2
      by (eapply (planned_lookup_None av av_nodup); [done | | done]; lia).
    assert (k0 ≠ k1) as Hne01.
    { intros ->. pose proof (NoDup_lookup _ _ _ _ av_nodup H0 H1). lia. }
    assert (k0 ≠ k2) as Hne02.
    { intros ->. pose proof (NoDup_lookup _ _ _ _ av_nodup H0 H2). lia. }
    assert (k1 ≠ k2) as Hne12.
    { intros ->. pose proof (NoDup_lookup _ _ _ _ av_nodup H1 H2). lia. }
    eapply always_bind; [apply always_choice; done |]. intros m _.
    eapply always_bind; [apply always_choice; done |]. intros l _.
    eapply always_bind; [apply always_round_uniform; lia |]. intros a _.
    eapply always_bind; [apply always_randint; lia |]. intros d Hd.
    eapply always_bind; [apply always_randint; lia |]. intros h Hh.
    cbv beta in Hd, Hh. apply always_ret. simpl.
    assert (base_date + timedelta d h 0 ≤ base_date + timedelta 365 23 0)
      as Hbt by (unfold timedelta; lia).
    apply plan_links_insert;
      [by rewrite !lookup_insert_ne | done
      | by intros ? ? ? ? ? [= _ _ _ <- _] |].
    apply plan_links_insert;
      [by rewrite !lookup_insert_ne | done
      | by intros ? ? ? ? ? [= _ _ _ <- _] |].
    apply plan_links_insert;
      [done | done | by intros ? ? ? ? ? [= _ _ _ <- _] | done].
  - by apply always_ret.
Qed.

(** A loop of slots keeps an invariant that each slot keeps. *)
Lemma always_slots_inv need ty (body : nat → plan_state → M plan_state)
    (I : plan_state → Prop) :
  (∀ x st, planned av st → always (body x st) (slot_effect av need ty st)) →
  (∀ x st, planned av st → I st → always (body x st) I) →
  ∀ xs st0,
    planned av st0 → I st0 →
    always (for_each xs body st0) (λ st', planned av st' ∧ I st').
Proof.
  intros Heff Hinv xs.
  induction xs as [|x xs IH]; intros st0 Hp HI; simpl.
  - by apply always_ret.
  - eapply always_bind;
      [apply always_conj; [by apply Heff | by apply Hinv] |].
    intros st1 [[Hp1 _] HI1]. by apply IH.
Qed.

End PlannerLinks.

Lemma always_plan_links num_rows num_anomalies :
  num_rows ≤ maxsize →
  always (plan_anomalies num_rows num_anomalies)
         (λ r, plan_links (anomaly_plan r.2)).
Proof.
  intros Hmax. unfold plan_anomalies.
  eapply always_bind; [by apply always_list_range |]. intros ? ->.
  eapply always_bind; [apply always_shuffle |]. intros av Hav.
  cbv beta in Hav.
  assert (NoDup av) as ND by (rewrite Hav; apply NoDup_range).
  eapply always_bind.
  { apply (always_slots_inv av 1 "high_amount" _
             (λ st, plan_links (anomaly_plan st)));
      [intros; by apply assign_high_effect
      | intros; by apply assign_high_links
      | by apply planned_empty | apply plan_links_empty]. }
  intros st1 [Hp1 Hl1].
  eapply always_bind.
  { apply (always_slots_inv av 2 "rapid_location_change" _
             (λ st, plan_links (anomaly_plan st)));
      [intros; by apply assign_pair_effect
      | intros; by apply assign_pair_links | done | done]. }
  intros st2 [Hp2 Hl2].
  eapply always_bind.
  { apply (always_slots_inv av 3 "repeated_small" _
             (λ st, plan_links (anomaly_plan st)));
      [intros; by apply assign_group_effect
      | intros; by apply assign_group_links | done | done]. }
  intros st3 [Hp3 Hl3]. by apply always_ret.
Qed.



(** ** Fields drawn from the reference data, and the latest timestamps *)

Lemma merchant_mapped merchant dflt :
  merchant ∈ MERCHANTS →
  MERCHANT_CATEGORY_MAP !! merchant = Some (merchant_category merchant dflt)
  ∧ merchant_category merchant dflt ∈ mapped_categories.
Proof.
  intros Hm. unfold merchant_category.
  assert (Forall (λ m, is_Some (MERCHANT_CATEGORY_MAP !! m)) MERCHANTS) as HF.
  { apply (bool_decide_unpack _). vm_compute. exact I. }
  rewrite Forall_forall in HF. destruct (HF _ Hm) as [c Hc].
  rewrite Hc. simpl. split; [done |].
  assert (map_Forall (λ _ c, c ∈ mapped_categories) MERCHANT_CATEGORY_MAP)
    as HM.
  { apply (bool_decide_unpack _). vm_compute. exact I. }
  apply (HM _ _ Hc).
Qed.

Lemma location_usa l : l ∈ LOCATIONS_USA → l ∈ LOCATIONS.
Proof. intros H. unfold LOCATIONS. apply elem_of_app. by left. Qed.

Lemma location_international l :
  l ∈ LOCATIONS_INTERNATIONAL → l ∈ LOCATIONS.
Proof. intros H. unfold LOCATIONS. apply elem_of_app. by right. Qed.

Lemma always_random_datetime_window :
  always random_datetime (λ t,
    base_date ≤ t ≤ base_date + timedelta 365 23 59).
Proof.
  eapply always_mono; [apply always_random_datetime |].
  intros t Ht. cbv beta in Ht. unfold base_date in *. lia.
Qed.

Lemma always_synth_high_amount_fields :
  always synth_high_amount (fields_ok 0).
Proof.
  unfold synth_high_amount.
  eapply always_bind; [apply always_generate_anomalous_amount |].
  intros amount _.
  eapply always_bind; [apply always_choice; done |]. intros merchant Hm.
  eapply always_bind; [apply always_choice; done |]. intros dflt _.
  eapply always_bind; [apply always_choice; done |]. intros location Hl.
  eapply always_bind; [apply always_random_datetime_window |]. intros ts Hts.
  cbv beta in Hm, Hl, Hts. apply always_ret. unfold fields_ok.
  destruct (merchant_mapped merchant dflt Hm) as [Hc Hcat].
  split; [done |]. split; [done |]. split; [done |]. split; [done |]. lia.
Qed.

Lemma always_synth_normal_fields : always synth_normal (fields_ok 0).
Proof.
  unfold synth_normal.
  eapply always_bind; [apply always_choice; done |]. intros merchant Hm.
  eapply always_bind; [apply always_choice; done |]. intros dflt _.
  eapply always_bind; [apply always_generate_normal_amount |].
  intros amount _.
  eapply always_bind; [apply always_random53 |]. intros u _.
  eapply always_bind.
  { instantiate (1 := λ l, l ∈ LOCATIONS). case_decide.
    - eapply always_mono; [apply always_choice; done |].
      intros l Hl. by apply location_usa.
    - apply always_choice. done. }
  intros location Hl.
  eapply always_bind; [apply always_random_datetime_window |]. intros ts Hts.
  cbv beta in Hm, Hl, Hts. apply always_ret. unfold fields_ok.
  destruct (merchant_mapped merchant dflt Hm) as [Hc Hcat].
  split; [done |]. split; [done |]. split; [done |]. split; [done |]. lia.
Qed.

Lemma always_synth_repeated_fields m l a bt k :
  m ∈ MERCHANTS → l ∈ LOCATIONS →
  0 ≤ bt ≤ base_date + timedelta 365 23 0 → (k < 3)%nat →
  always (synth_repeated m l a bt k) (fields_ok 0).
Proof.
  intros Hm Hl Hbt Hk. unfold synth_repeated.
  eapply always_bind; [apply always_randint; lia |]. intros step Hstep.
  cbv beta in Hstep. apply always_ret. unfold fields_ok.
  destruct (merchant_mapped m "Shopping" Hm) as [Hc Hcat].
  split; [done |]. split; [done |]. split; [done |]. split; [done |].
  unfold timedelta, base_date in *. nia.
Qed.

Lemma always_synth_rapid_fields plan i pair_index pair_id first_idx ts :
  timestamps_bounded plan →
  always (synth_rapid plan i pair_index pair_id first_idx ts) (λ r,
    fields_ok (if decide (pair_index = 0%nat) then 0 else timedelta 0 0 5)
              r.1).
Proof.
  intros Hbd. unfold synth_rapid.
  eapply always_bind; [apply always_choice; done |]. intros merchant Hm.
  eapply always_bind; [apply always_choice; done |]. intros dflt _.
  eapply always_bind; [apply always_generate_normal_amount |].
  intros amount _. cbv beta in Hm.
  destruct (merchant_mapped merchant dflt Hm) as [Hc Hcat].
  destruct (decide (pair_index = 0%nat)) as [Hz|Hnz].
  - eapply always_bind; [apply always_choice; done |]. intros location Hl.
    eapply always_bind; [apply always_random_datetime_window |].
    intros t Ht. cbv beta in Hl, Ht. apply always_ret.
    cbn [fst snd]. unfold fields_ok.
    split; [done |]. split; [done |]. split; [done |].
    split; [by apply location_usa |]. lia.
  - eapply always_bind; [apply always_choice; done |]. intros location Hl.
    cbv beta in Hl.
    destruct (_ ≫= entry_timestamp) as [first_timestamp|] eqn:Efirst.
    + assert (base_date ≤ first_timestamp
              ≤ base_date + timedelta 365 23 59) as Hft.
      { apply bind_Some in Efirst as (e & He & Hts).
        destruct first_idx as [k|]; [| done]. case_decide; [done |].
        apply (Hbd k e _ He Hts). }
      eapply always_bind; [apply always_randint; lia |]. intros m Hmin.
      cbv beta in Hmin. apply always_ret. cbn [fst snd]. unfold fields_ok.
      split; [done |]. split; [done |]. split; [done |].
      split; [by apply location_international |].
      unfold timedelta, base_date in *. lia.
    + eapply always_bind; [apply always_random_datetime_window |].
      intros t Ht. cbv beta in Ht. apply always_ret.
      cbn [fst snd]. unfold fields_ok.
      split; [done |]. split; [done |]. split; [done |].
      split; [by apply location_international |].
      unfold timedelta, base_date in *. lia.
Qed.

Lemma fields_ok_row i a bound f :
  1 ≤ a ≤ 50 → fields_ok bound f →
  row_fields (fields_row i a f) ∧
  base_date ≤ Timestamp (fields_row i a f)
    ≤ base_date + timedelta 365 23 59 + bound.
Proof.
  intros Ha. destruct f as [[[[amount merchant] category] timestamp] location].
  unfold fields_ok, row_fields. simpl. intros (? & ? & ? & ? & ?).
  repeat split; try done; try lia. by exists a.
Qed.

Lemma always_synth_row_fields plan0 plan i :
  (∀ j e, plan0 !! j = Some e → entry_fresh e) →
  base_times_bounded plan0 →
  plan_rel plan0 plan → timestamps_bounded plan →
  always (synth_row i plan) (λ r,
    row_fields r.1 ∧ row_time_bound plan0 i r.1).
Proof.
  intros Hfresh Hbase Hrel Hbd. unfold synth_row.
  eapply always_bind; [apply always_randint; lia |]. intros a Ha.
  cbv beta in Ha. pose proof (Hrel i) as Hreli.
  set (post := λ r : fields * gmap nat plan_entry,
         row_fields (fields_row i a r.1) ∧
         row_time_bound plan0 i (fields_row i a r.1)).
  assert (∀ r, post r → always
            (let '(amount, merchant, category, timestamp, location, plan') := r in
             mret (Transaction
                     ("TXN" ++ Text.zfill 6 (Text.str (Z.of_nat i + 1)))
                     ("ACC" ++ Text.zfill 4 (Text.str a)) amount merchant
                     category timestamp location, plan'))
            (λ r, row_fields r.1 ∧ row_time_bound plan0 i r.1)) as Hfin.
  { intros [[[[[amount merchant] category] timestamp] location] plan'] Hr.
    apply always_ret. exact Hr. }
  destruct (plan !! i) as [e|] eqn:Ei.
  - destruct (plan0 !! i) as [e0|] eqn:E0; [| done].
    simpl in Hreli. injection Hreli as Hreli.
    apply erase_timestamp_inv in Hreli.
    destruct e as [|pair_index pair_id first_idx ts|m l amt bt k].
    + subst e0. eapply always_bind; [| exact Hfin].
      eapply always_bind; [apply always_synth_high_amount_fields |].
      intros f Hf. apply always_ret. unfold post, row_time_bound.
      rewrite E0. cbn [fst snd].
      destruct (fields_ok_row i a 0 f Ha Hf) as [? ?]. split; [done |]. lia.
    + destruct Hreli as [ts0 ->]. eapply always_bind; [| exact Hfin].
      eapply always_mono;
        [by apply (always_synth_rapid_fields plan i) |].
      intros r Hf. cbv beta in Hf. unfold post, row_time_bound. rewrite E0.
      destruct (fields_ok_row i a _ r.1 Ha Hf) as [? ?]. split; [done |].
      destruct pair_index; simpl in *; done.
    + subst e0. pose proof (Hfresh _ _ E0) as Hf0. simpl in Hf0.
      pose proof (Hbase _ _ _ _ _ _ E0) as Hb0.
      eapply always_bind; [| exact Hfin].
      eapply always_bind;
        [apply always_synth_repeated_fields; [tauto | tauto | lia | tauto] |].
      intros f Hf. apply always_ret. unfold post, row_time_bound.
      rewrite E0. cbn [fst snd].
      destruct (fields_ok_row i a 0 f Ha Hf) as [? ?]. split; [done |]. lia.
  - destruct (plan0 !! i) as [e0|] eqn:E0; [done |].
    eapply always_bind; [| exact Hfin].
    eapply always_bind; [apply always_synth_normal_fields |].
    intros f Hf. apply always_ret. unfold post, row_time_bound.
    rewrite E0. cbn [fst snd].
    destruct (fields_ok_row i a 0 f Ha Hf) as [? ?]. split; [done |]. lia.
Qed.

(** ** The mutation of the plan during synthesis *)

Lemma always_synth_rapid_written plan i a pair_index pair_id first_idx ts :
  plan !! i = Some (rapid_location_change pair_index pair_id first_idx ts) →
  always (synth_rapid plan i pair_index pair_id first_idx ts) (λ r,
    written_back plan i (fields_row i a r.1, r.2)).
Proof.
  intros Hi. unfold synth_rapid, written_back. rewrite Hi.
  eapply always_bind; [apply always_choice; done |]. intros merchant _.
  eapply always_bind; [apply always_choice; done |]. intros dflt _.
  eapply always_bind; [apply always_generate_normal_amount |].
  intros amount _.
  destruct (decide (pair_index = 0%nat)) as [->|Hnz].
  - eapply always_bind; [apply always_choice; done |]. intros location _.
    eapply always_bind; [apply always_random_datetime |]. intros t _.
    apply always_ret. reflexivity.
  - eapply always_bind; [apply always_choice; done |]. intros location _.
    destruct pair_index as [|n]; [done |].
    destruct (_ ≫= entry_timestamp) as [first_timestamp|].
    + eapply always_bind; [apply always_randint; lia |]. intros m _.
      apply always_ret. reflexivity.
    + eapply always_bind; [apply always_random_datetime |]. intros t _.
      apply always_ret. reflexivity.
Qed.

Lemma always_synth_row_written plan i :
  always (synth_row i plan) (written_back plan i).
Proof.
  unfold synth_row.
  eapply always_bind; [apply always_randint; lia |]. intros a _.
  destruct (plan !! i) as [[|pair_index pair_id first_idx ts|m l amt bt k]|]
    eqn:Ei.
  - eapply always_bind.
    { eapply always_bind;
        [apply (always_true _ _ (always_synth_high_amount i a)) |].
      intros f _. apply always_ret.
      instantiate (1 := λ r, r.2 = plan). reflexivity. }
    intros [[[[[amount merchant] category] timestamp] location] plan'] Hr.
    apply always_ret. simpl in Hr. subst plan'. unfold written_back.
    rewrite Ei. done.
  - eapply always_bind; [by apply (always_synth_rapid_written plan i a) |].
    intros [[[[[amount merchant] category] timestamp] location] plan'] Hr.
    apply always_ret. exact Hr.
  - eapply always_bind.
    { eapply always_bind; [| intros f _; apply always_ret;
        instantiate (1 := λ r, r.2 = plan); reflexivity].
      unfold synth_repeated.
      eapply always_bind; [apply always_randint; lia |]. intros step _.
      apply always_ret. instantiate (1 := λ _, True). done. }
    intros [[[[[amount merchant] category] timestamp] location] plan'] Hr.
    apply always_ret. simpl in Hr. subst plan'. unfold written_back.
    rewrite Ei. done.
  - eapply always_bind.
    { eapply always_bind;
        [apply (always_true _ _ (always_synth_normal i a)) |].
      intros f _. apply always_ret.
      instantiate (1 := λ r, r.2 = plan). reflexivity. }
    intros [[[[[amount merchant] category] timestamp] location] plan'] Hr.
    apply always_ret. simpl in Hr. subst plan'. unfold written_back.
    rewrite Ei. done.
Qed.

Lemma written_back_lookup plan i t plan' k :
  written_back plan i (t, plan') →
  plan' !! k
  = if decide (k = i) then
      match plan !! i with
      | Some (rapid_location_change 0 pair_id first_idx _) =>
          Some (rapid_location_change 0 pair_id first_idx
                  (Some (Timestamp t)))
      | e => e
      end
    else plan !! k.
Proof.
  unfold written_back. cbn [fst snd]. intros H.
  destruct (decide (k = i)) as [->|Hne].
  - destruct (plan !! i) as [[|[|n] pair_id first_idx ts|]|] eqn:E;
      subst plan'; rewrite ?lookup_insert_eq; done.
  - destruct (plan !! i) as [[|[|n] pair_id first_idx ts|]|] eqn:E;
      subst plan'; rewrite ?lookup_insert_ne by done; done.
Qed.

Lemma fields_invariant_step plan0 n txs plan t plan' :
  fields_invariant plan0 n (txs, plan) →
  row_fields t → row_time_bound plan0 n t →
  written_back plan n (t, plan') →
  fields_invariant plan0 (S n) ((txs ++ [t])%list, plan').
Proof.
  intros (Hlen & Hrel & Hbd & Hrows & Hafter) Hf Ht Hw.
  unfold fields_invariant. cbn [fst snd] in *.
  assert (plan_rel plan0 plan') as Hrel'.
  { unfold written_back in Hw. cbn [fst snd] in Hw.
    destruct (plan !! n) as [[|[|?] ? ? ?|]|] eqn:E; subst plan'; try done.
    by eapply plan_rel_insert. }
  assert (plan !! n = plan0 !! n) as Hn.
  { rewrite Hafter. rewrite (lookup_ge_None_2 txs n) by lia.
    by destruct (plan0 !! n) as [[|[|?] ? ? ?|]|]. }
  split; [rewrite length_app; simpl; lia |]. split; [done |].
  split; [| split].
  - intros i e t0 Hi He.
    rewrite (written_back_lookup _ _ _ _ i Hw) in Hi.
    destruct (decide (i = n)) as [->|Hne]; [| by eapply Hbd].
    rewrite Hn in Hi. unfold row_time_bound in Ht.
    destruct (plan0 !! n) as [[|[|?] ? ? ?|]|] eqn:E0; try done;
      inversion Hi; subst e; simpl in He; try done.
    + inversion He; subst t0. lia.
    + rewrite <- Hn in E0. by eapply (Hbd n).
  - intros i t_i Hi.
    apply lookup_app_Some in Hi as [Hi | [Hge Hi]]; [by apply Hrows |].
    rewrite Hlen in *. destruct (i - n)%nat eqn:En; [| done].
    simpl in Hi. inversion Hi; subst t_i. assert (i = n) as -> by lia. done.
  - intros i. rewrite (written_back_lookup _ _ _ _ i Hw).
    destruct (decide (i = n)) as [->|Hne].
    + rewrite Hn, lookup_app_r by lia. rewrite Hlen, Nat.sub_diag. done.
    + rewrite Hafter. destruct (decide (i < n)%nat).
      * by rewrite lookup_app_l by lia.
      * rewrite (lookup_ge_None_2 txs i) by lia.
        rewrite (lookup_ge_None_2 (txs ++ [t])%list i); [done |].
        rewrite length_app. simpl. lia.
Qed.

Lemma always_synthesize_fields plan0 num_rows :
  (∀ j e, plan0 !! j = Some e → entry_fresh e) →
  base_times_bounded plan0 →
  always (synthesize num_rows plan0)
         (fields_invariant plan0 (Z.to_nat num_rows)).
Proof.
  intros Hfresh Hbase. unfold synthesize, range.
  apply (always_for_each_seq synth_step (fields_invariant plan0)
           (Z.to_nat num_rows) 0%nat).
  - split; [done |]. split; [done |]. split; [| split].
    + intros i e t Hi He. pose proof (Hfresh i e Hi) as Hf.
      destruct e; simpl in *; try done. destruct Hf as [-> _]. done.
    + intros i t H. done.
    + intros i. cbn [fst snd]. rewrite lookup_nil.
      by destruct (plan0 !! i) as [[|[|?] ? ? ?|]|].
  - intros j [txs plan] _ Hinv. unfold synth_step. simpl.
    pose proof Hinv as (_ & Hrel & Hbd & _). cbn [fst snd] in *.
    eapply always_bind.
    { apply always_conj; [| apply always_synth_row_written].
      by apply (always_synth_row_fields plan0 plan j). }
    intros [t plan'] [[Hf Ht] Hw]. cbn [fst snd] in *.
    apply always_ret. by apply (fields_invariant_step plan0 j txs plan).
Qed.

Lemma generate_transactions_run_fields num_rows anomaly_percentage g
    num_anomalies :
  Float.int_of_product num_rows anomaly_percentage = Some num_anomalies →
  num_rows ≤ maxsize →
  ∃ av st g1 transactions plan' g2,
    plan_anomalies num_rows num_anomalies g = Some ((av, st), g1) ∧
    synthesize num_rows (anomaly_plan st) g1
      = Some ((transactions, plan'), g2) ∧
    generate_transactions num_rows anomaly_percentage g
      = Some (transactions, g2) ∧
    fields_invariant (anomaly_plan st) (Z.to_nat num_rows)
                     (transactions, plan').
Proof.
  intros Hk Hmax.
  destruct (generate_transactions_run _ _ g _ Hk Hmax)
    as (av & st & g1 & txs & plan' & g2 & Eplan & Esyn & Egen & Hpost & _).
  exists av, st, g1, txs, plan', g2.
  split; [done |]. split; [done |]. split; [done |].
  destruct Hpost as (_ & Hp & _). simpl in Hp.
  pose proof (always_elim _ _ _ _ _
                (always_plan_links num_rows num_anomalies Hmax) Eplan) as [_ Hb].
  simpl in Hb.
  apply (always_elim _ _ _ _ _
           (always_synthesize_fields (anomaly_plan st) num_rows
              (planned_fresh _ _ Hp) Hb) Esyn).
Qed.

(** X7.  In every run each record is built from the reference data: the
    merchant is one of MERCHANTS, the category is the one
    MERCHANT_CATEGORY_MAP gives that merchant, so the randomly chosen
    fallback category and the Shopping default are never used and only
    the ten mapped categories occur, the location is one of LOCATIONS, and
    the account id is ACC followed by a number from 1 to 50 padded to four
    digits. *)
Theorem records_use_reference_data (num_rows : Z) (anomaly_percentage : Q)
    (g : rng) (num_anomalies : Z) :
  Float.int_of_product num_rows anomaly_percentage = Some num_anomalies →
  num_rows ≤ maxsize →
  ∃ av st transactions,
    run_of num_rows anomaly_percentage g num_anomalies av st transactions ∧
    records_from_reference_data transactions.
Proof.
  intros Hk Hmax.
  destruct (generate_transactions_run_fields _ _ g _ Hk Hmax)
    as (av & st & g1 & txs & plan' & g2 & Eplan & Esyn & Egen
        & (_ & _ & _ & Hrows & _)).
  exists av, st, txs. split; [by exists g1, plan', g2 |].
  intros t Ht. apply list_elem_of_lookup in Ht as [i Hi].
  destruct (Hrows i t Hi) as [Hf _]. split; [done |].
  destruct Hf as (_ & _ & Hc & _).
  assert (Forall (λ c, c ∈ CATEGORIES) mapped_categories) as HF.
  { apply (bool_decide_unpack _). vm_compute. exact I. }
  rewrite Forall_forall in HF. by apply HF.
Qed.

Lemma records_use_reference_data_witness :
  Float.int_of_product 9 (1 # 1) = Some 9 ∧
  9 ≤ maxsize ∧
  ∃ av st transactions,
    run_of 9 (1 # 1) tape_group 9 av st transactions ∧
    records_from_reference_data transactions.
Proof.
  split; [vm_compute; reflexivity |].
  split; [unfold maxsize; lia |].
  apply (records_use_reference_data 9 (1 # 1) tape_group 9);
    [vm_compute; reflexivity | unfold maxsize; lia].
Defined.

(** X8.  In every run the timestamp of every record is at or after
    2023-01-01 00:00:00.  It is at most 2024-01-01 23:59:00 for a normal
    row, a high-amount row, the first row of a pair and a member of a
    group, and at most 5 minutes later for the second row of a pair: no
    timestamp is after 2024-01-02 00:04:00. *)
Theorem timestamps_bounded_by_kind (num_rows : Z) (anomaly_percentage : Q)
    (g : rng) (num_anomalies : Z) :
  Float.int_of_product num_rows anomaly_percentage = Some num_anomalies →
  num_rows ≤ maxsize →
  ∃ av st transactions,
    run_of num_rows anomaly_percentage g num_anomalies av st transactions ∧
    timestamps_in_window (anomaly_plan st) transactions.
Proof.
  intros Hk Hmax.
  destruct (generate_transactions_run_fields _ _ g _ Hk Hmax)
    as (av & st & g1 & txs & plan' & g2 & Eplan & Esyn & Egen
        & (_ & _ & _ & Hrows & _)).
  exists av, st, txs. split; [by exists g1, plan', g2 |].
  intros i t Hi. destruct (Hrows i t Hi) as [_ Hb]. split; [done |].
  unfold row_time_bound in Hb. unfold timedelta, base_date in *.
  destruct (anomaly_plan st !! i) as [[|[|?] ? ? ?|]|]; lia.
Qed.

Lemma timestamps_bounded_by_kind_witness :
  Float.int_of_product 6 (1 # 1) = Some 6 ∧
  6 ≤ maxsize ∧
  ∃ av st transactions,
    run_of 6 (1 # 1) tape_pair_row_zero 6 av st transactions ∧
    timestamps_in_window (anomaly_plan st) transactions.
Proof.
  split; [vm_compute; reflexivity |].
  split; [unfold maxsize; lia |].
  apply (timestamps_bounded_by_kind 6 (1 # 1) tape_pair_row_zero 6);
    [vm_compute; reflexivity | unfold maxsize; lia].
Defined.

(** X9.  Synthesis changes the plan in one way only: the entry of the
    first row of a pair receives the timestamp of that row's record.
    Every other entry, the second rows of pairs included, is after the
    run what the planner wrote, and no entry is added or removed. *)
Theorem synthesis_writes_first_timestamps (num_rows : Z)
    (anomaly_percentage : Q) (g : rng) (num_anomalies : Z) :
  Float.int_of_product num_rows anomaly_percentage = Some num_anomalies →
  num_rows ≤ maxsize →
  ∃ av st g1 transactions plan' g2,
    plan_anomalies num_rows num_anomalies g = Some ((av, st), g1) ∧
    synthesize num_rows (anomaly_plan st) g1
      = Some ((transactions, plan'), g2) ∧
    plan_after (anomaly_plan st) transactions plan' ∧
    dom plan' = dom (anomaly_plan st).
Proof.
  intros Hk Hmax.
  destruct (generate_transactions_run_fields _ _ g _ Hk Hmax)
    as (av & st & g1 & txs & plan' & g2 & Eplan & Esyn & Egen
        & (_ & _ & _ & _ & Hafter)).
  exists av, st, g1, txs, plan', g2.
  split; [done |]. split; [done |]. cbn [fst snd] in Hafter.
  split; [done |].
  apply set_eq. intros i. rewrite !elem_of_dom, Hafter.
  destruct (anomaly_plan st !! i) as [[|[|?] ? ? ?|]|];
    destruct (txs !! i); split; intros [? ?]; eauto; done.
Qed.

Lemma synthesis_writes_first_timestamps_witness :
  Float.int_of_product 6 (1 # 1) = Some 6 ∧
  6 ≤ maxsize ∧
  ∃ av st g1 transactions plan' g2,
    plan_anomalies 6 6 tape_pair_reversed = Some ((av, st), g1) ∧
    synthesize 6 (anomaly_plan st) g1 = Some ((transactions, plan'), g2) ∧
    plan_after (anomaly_plan st) transactions plan' ∧
    dom plan' = dom (anomaly_plan st).
Proof.
  split; [vm_compute; reflexivity |].
  split; [unfold maxsize; lia |].
  apply (synthesis_writes_first_timestamps 6 (1 # 1) tape_pair_reversed 6);
    [vm_compute; reflexivity | unfold maxsize; lia].
Defined.

(** ** Transaction identifiers *)

Lemma zeros_cons k :
  String.concat "" (replicate (S k) "0")
  = String "0" (String.concat "" (replicate k "0")).
Proof. destruct k; reflexivity. Qed.

Lemma parse_digits_zero s :
  s ≠ "" → parse_digits (String "0" s) = parse_digits s.
Proof.
  intros Hs. unfold parse_digits.
  change (NilZero.uint_of_string (String "0" s))
    with (uint_of_char "0" (NilEmpty.uint_of_string s)).
  destruct s as [|c s]; [done |].
  change (NilZero.uint_of_string (String c s))
    with (NilEmpty.uint_of_string (String c s)).
  destruct (NilEmpty.uint_of_string (String c s)); reflexivity.
Qed.

Lemma zfill_cases width s :
  ∃ k, Text.zfill width s = String.concat "" (replicate k "0") ++ s.
Proof. by eexists. Qed.

Lemma parse_digits_zeros k s :
  s ≠ "" →
  parse_digits (String.concat "" (replicate k "0") ++ s) = parse_digits s.
Proof.
  intros Hs. induction k as [|k IH]; [reflexivity |].
  rewrite zeros_cons.
  change (String "0" ?a ++ s) with (String "0" (a ++ s)).
  rewrite parse_digits_zero; [exact IH |].
  destruct (String.concat "" (replicate k "0")); [exact Hs | done].
Qed.

Lemma str_nonempty n : Text.str n ≠ "".
Proof.
  unfold Text.str. case_decide; [done |].
  change ("" +:+ ?x) with x. unfold NilZero.string_of_uint.
  destruct (N.to_uint _) eqn:E; try done.
Qed.

Lemma parse_digits_zfill width n :
  0 ≤ n → parse_digits (Text.zfill width (Text.str n)) = Some n.
Proof.
  intros Hn. destruct (zfill_cases width (Text.str n)) as [k ->].
  rewrite parse_digits_zeros by apply str_nonempty.
  by apply parse_digits_str.
Qed.

Lemma row_id_inj i j : row_id i = row_id j → i = j.
Proof.
  unfold row_id. intros H. injection H as H.
  assert (parse_digits (Text.zfill 6 (Text.str (Z.of_nat i + 1)))
          = parse_digits (Text.zfill 6 (Text.str (Z.of_nat j + 1)))) as Hp
    by exact (f_equal parse_digits H).
  rewrite !parse_digits_zfill in Hp by lia. inversion Hp. lia.
Qed.

(** X10.  In every run the record at index i carries the identifier TXN
    followed by i + 1 padded with zeros to six digits, the padding never
    truncates, and no two records share an identifier, whatever the number
    of rows. *)
Theorem transaction_ids_are_unique (num_rows : Z) (anomaly_percentage : Q)
    (g : rng) (num_anomalies : Z) :
  Float.int_of_product num_rows anomaly_percentage = Some num_anomalies →
  num_rows ≤ maxsize →
  ∃ av st transactions,
    run_of num_rows anomaly_percentage g num_anomalies av st transactions ∧
    transaction_ids_unique transactions.
Proof.
  intros Hk Hmax.
  destruct (generate_transactions_run _ _ g _ Hk Hmax)
    as (av & st & g1 & txs & plan' & g2 & Eplan & Esyn & Egen & Hpost & _).
  exists av, st, txs. split; [by exists g1, plan', g2 |].
  destruct Hpost as (_ & Hp & _). simpl in Hp.
  pose proof (always_elim _ _ _ _ _
                (always_synthesize_pairs (anomaly_plan st) num_rows
                   (planned_fresh _ _ Hp)) Esyn) as (_ & _ & _ & Hids & _).
  cbn [fst snd] in Hids. split; [exact Hids |].
  intros i j t1 t2 H1 H2 Heq. apply row_id_inj.
  by rewrite <- (Hids i t1 H1), <- (Hids j t2 H2).
Qed.

Lemma transaction_ids_are_unique_witness :
  Float.int_of_product 9 (1 # 1) = Some 9 ∧
  9 ≤ maxsize ∧
  ∃ av st transactions,
    run_of 9 (1 # 1) tape_group 9 av st transactions ∧
    transaction_ids_unique transactions.
Proof.
  split; [vm_compute; reflexivity |].
  split; [unfold maxsize; lia |].
  apply (transaction_ids_are_unique 9 (1 # 1) tape_group 9);
    [vm_compute; reflexivity | unfold maxsize; lia].
Defined.

(** The padding does not truncate: the millionth row has seven digits. *)
Example row_id_seven_digits : row_id (Z.to_nat 999999) = "TXN1000000".
Proof. vm_compute. reflexivity. Qed.

(** ** Pairs in order: witnesses *)

(** X14.  [location_pair_window_in_order]: in every run a pair whose
    first row has a non-zero index below the index of its second row has
    its second record 1 to 5 minutes after the first.  Here on a run of 9
    rows whose pair sits on rows 3 and 4. *)
Lemma location_pair_window_in_order_witness :
  Float.int_of_product 9 (1 # 1) = Some 9 ∧
  9 ≤ maxsize ∧
  ∃ av st transactions,
    run_of 9 (1 # 1) tape_group 9 av st transactions ∧
    pair_window_in_order (anomaly_plan st) transactions.
Proof.
  split; [vm_compute; reflexivity |].
  split; [unfold maxsize; lia |].
  apply (location_pair_window_in_order 9 (1 # 1) tape_group 9);
    [vm_compute; reflexivity | unfold maxsize; lia].
Defined.

(** ** Reading the written file *)

(** X11.  For every list of records, whatever characters their fields
    hold (commas, quotes and line breaks included), the text [write_csv]
    writes reads back, with the quoting undone, as the header followed by
    the seven cells of each record in order.  Hence two lists of records
    that write the same file have the same cells. *)
Theorem csv_reads_back (transactions : list transaction) :
  CsvRead.read_csv (Csv.write_csv transactions)
  = Some (Csv.fieldnames :: (record_cells <$> transactions)) ∧
  ∀ transactions',
    Csv.write_csv transactions = Csv.write_csv transactions' →
    record_cells <$> transactions = record_cells <$> transactions'.
Proof.
  split; [apply write_csv_reads_back |].
  intros txs' Heq. pose proof (write_csv_reads_back transactions) as H1.
  rewrite Heq, write_csv_reads_back in H1. by inversion H1.
Qed.

(** ** Slots beyond the end of the index list *)

Lemma always_slots_saturate av need ty
    (body : nat → plan_state → M plan_state) :
  (∀ x st, planned av st → always (body x st) (slot_effect av need ty st)) →
  ∀ xs st0,
    planned av st0 →
    always (for_each xs body st0) (λ st',
      planned av st' ∧
      ∃ q, slots_filled (length av) (idx st0) need (length xs) q ∧
           idx st' = (idx st0 + need * q)%nat ∧
           ∀ ty', count_type ty' (anomaly_plan st')
                  = (count_type ty' (anomaly_plan st0)
                     + if decide (ty' = ty) then need * q else 0)%nat).
Proof.
  intros Hbody xs. induction xs as [|x xs IH]; intros st0 Hp; simpl.
  - apply always_ret. split; [done |]. exists 0%nat.
    pose proof (planned_idx _ _ Hp). unfold slots_filled.
    rewrite Nat.mul_0_r. repeat split; try lia.
    intros ty'. case_decide; lia.
  - eapply always_bind; [apply Hbody, Hp |]. intros st1 [Hp1 Heff].
    eapply always_mono; [apply IH, Hp1 |].
    intros st' (Hp' & q & (Hq1 & Hq2 & Hq3) & Hidx & Hcnt).
    split; [done |].
    destruct Heff as [(Hr & Hidx1 & Hcnt1) | (Hr & ->)].
    + exists (S q). rewrite Hidx1 in *. unfold slots_filled.
      rewrite Nat.mul_succ_r. repeat split; try lia.
      intros ty'. rewrite Hcnt, Hcnt1. case_decide; lia.
    + assert (q = 0%nat) as -> by nia.
      exists 0%nat. unfold slots_filled.
      rewrite Nat.mul_0_r in *. repeat split; try lia. exact Hcnt.
Qed.



(** With at least three times as many requested anomalies as rows, every
    row is a high-amount row. *)
Lemma saturated_plan_all_high :
  ∃ av st g',
    plan_anomalies 4 12 (rng_of_list [3; 1; 2]) = Some ((av, st), g') ∧
    count_type "high_amount" (anomaly_plan st) = 4%nat ∧
    size (anomaly_plan st) = 4%nat.
Proof.
  eexists _, _, _. split; [vm_compute; reflexivity |].
  split; vm_compute; reflexivity.
Qed.

(** ** The locations of a pair *)

(** X15.  [location_pair_locations]: in every run the first row of a
    pair has a domestic location and the second an international one,
    also when the timestamp fallback is taken.  Here on the run of 6 rows
    whose pair is processed in reverse order. *)
Lemma location_pair_locations_witness :
  Float.int_of_product 6 (1 # 1) = Some 6 ∧
  6 ≤ maxsize ∧
  ∃ av st transactions,
    run_of 6 (1 # 1) tape_pair_reversed 6 av st transactions ∧
    ∀ i pair_index pair_id first_idx ts t,
      anomaly_plan st !! i
        = Some (rapid_location_change pair_index pair_id first_idx ts) →
      transactions !! i = Some t →
      Location t ∈ (if decide (pair_index = 0%nat) then LOCATIONS_USA
                    else LOCATIONS_INTERNATIONAL).
Proof.
  split; [vm_compute; reflexivity |].
  split; [unfold maxsize; lia |].
  apply (location_pair_locations 6 (1 # 1) tape_pair_reversed 6);
    [vm_compute; reflexivity | unfold maxsize; lia].
Defined.

(** ** The script as a whole *)

